(** * Maze movement engine: Level.js, Player.js and the sketch's glue

    A shallow embedding of the tile grid ([Level]), of the avatar's movement
    state machine ([Player]) and of the few orchestrator functions of
    sketch.js that touch them, followed by the properties proved about them.

    Conventions of the embedding.
    - A JavaScript number that the program only ever uses as an integer
      (grid coordinates, tile codes, the key counter) is a [Z]; this is exact
      below 2^53, where binary64 arithmetic on integers is integer
      arithmetic.  Pixel positions, sizes, speed and the frame time are
      genuine binary64 values and are modelled by Rocq's primitive [float].
    - [null] and [undefined] are [None] of an [option].
    - A call that can raise returns a [result].  Every raise in this program
      is the [TypeError] of reading or writing a property of [undefined].  In
      [Level] and [Player] each happens before the call has mutated
      anything, so [Throw] carries no state; for the sketch's callbacks see
      [Game].
    - Objects mutated in place (a level's rows, the player) are threaded
      through explicitly: a method returns the new object next to its
      JavaScript return value.
    - The arithmetic of [Player.update] is written a second time with the
      number system as a parameter ([Motion]), so that what it computes in
      binary64 can be set against what the same formulas give over the
      reals. *)

From Stdlib Require Import ZArith Floats Reals Lra Lia.
From stdpp Require Import gmap list strings.

Local Open Scope Z_scope.

(** ** Exceptions *)

Inductive exn : Type := TypeError.

Inductive result (A : Type) : Type :=
| Ok (a : A)
| Throw (e : exn).
Arguments Ok {A} a.
Arguments Throw {A} e.

Definition bind {A B : Type} (m : result A) (k : A -> result B) : result B :=
  match m with
  | Ok a => k a
  | Throw e => Throw e
  end.

Notation "'let*' x ':=' m 'in' k" := (bind m (fun x => k))
  (at level 10, x pattern, m at level 100, k at level 200).

(** [v === n] for a value read out of an array: [undefined] equals no number. *)
Definition strict_eq (v : option Z) (n : Z) : bool :=
  match v with
  | Some z => z =? n
  | None => false
  end.

(** ** JavaScript arrays of numbers

    A row of the grid is written by index ([grid[r][c] = 0]), so it is
    modelled with the full behaviour of a JavaScript array under integer
    keys: a finite map from keys to values together with [length].  Reading
    an absent key gives [undefined]; writing at a key at or past [length]
    extends the array (leaving holes); writing at a negative key adds a
    property and leaves [length] alone. *)
Module Array.

Record t : Type := mk { elems : gmap Z Z; length : nat }.

(** [a[i]] *)
Definition get (a : t) (i : Z) : option Z := elems a !! i.

(** [a[i] = v] *)
Definition set (a : t) (i v : Z) : t :=
  {| elems := <[i := v]> (elems a);
     length := if 0 <=? i then Nat.max (length a) (Z.to_nat i + 1) else length a |}.

(** The array literal [[x0, x1, ...]], as JSON.parse produces it. *)
Definition of_list (l : list Z) : t :=
  {| elems := list_to_map (imap (fun i x => (Z.of_nat i, x)) l);
     length := List.length l |}.

(** [a.slice()]: a new array with the elements of [a] at the indices
    [0 .. length-1] (holes stay holes) and the same [length]; properties
    under other keys are not copied. *)
Definition slice (a : t) : t :=
  {| elems := filter (fun kv => 0 <= kv.1 < Z.of_nat (length a)) (elems a);
     length := length a |}.

(** An array without holes and without extra properties: its keys are
    exactly [0 .. length-1]. *)
Definition dense (a : t) : bool :=
  bool_decide (dom (elems a) = list_to_set (seqZ 0 (Z.of_nat (length a)))).

End Array.

(** [g[r]] on the outer array of rows, which the program never writes. *)
Definition row_at (g : list Array.t) (r : Z) : option Array.t :=
  if r <? 0 then None else g !! Z.to_nat r.

(** ** Level.js *)
Module Level.

(** Tile legend of Level.js. *)
Definition FLOOR : Z := 0.
Definition WALL : Z := 1.
Definition START : Z := 2.
Definition GOAL : Z := 3.
Definition KEY : Z := 4.
Definition GATE : Z := 5.

Record t : Type := mk {
  grid : list Array.t;
  ts : float;
  start : option (Z * Z)
}.

Definition rows (this : t) : Z := Z.of_nat (List.length (grid this)).

(** [this.grid[0].length]: raises on a grid without rows. *)
Definition cols (this : t) : result Z :=
  match row_at (grid this) 0 with
  | None => Throw TypeError
  | Some row => Ok (Z.of_nat (Array.length row))
  end.

(** [this.cols() * this.ts] *)
Definition pixelWidth (this : t) : result float :=
  let* n := cols this in
  Ok (SF2Prim (binary_normalize prec emax n 0 false) * ts this)%float.

(** [this.rows() * this.ts] *)
Definition pixelHeight (this : t) : float :=
  (SF2Prim (binary_normalize prec emax (rows this) 0 false) * ts this)%float.

(** [r >= 0 && c >= 0 && r < this.rows() && c < this.cols()], with the
    short circuit of [&&]: [cols] is only evaluated after [r < rows()]. *)
Definition inBounds (this : t) (r c : Z) : result bool :=
  if negb (0 <=? r) then Ok false
  else if negb (0 <=? c) then Ok false
  else if negb (r <? rows this) then Ok false
  else let* n := cols this in Ok (c <? n).

(** [this.grid[r][c]]: [undefined[c]] raises when there is no row [r]. *)
Definition tileAt (this : t) (r c : Z) : result (option Z) :=
  match row_at (grid this) r with
  | None => Throw TypeError
  | Some row => Ok (Array.get row c)
  end.

Definition isWall (this : t) (r c : Z) : result bool :=
  let* v := tileAt this r c in Ok (strict_eq v WALL).

Definition isGoal (this : t) (r c : Z) : result bool :=
  let* v := tileAt this r c in Ok (strict_eq v GOAL).

Definition isKey (this : t) (r c : Z) : result bool :=
  let* v := tileAt this r c in Ok (strict_eq v KEY).

Definition isGate (this : t) (r c : Z) : result bool :=
  let* v := tileAt this r c in Ok (strict_eq v GATE).

(** [this.grid[r][c] = v]: raises when there is no row [r]; otherwise the
    row object is updated in place. *)
Definition setTile (this : t) (r c v : Z) : result t :=
  match row_at (grid this) r with
  | None => Throw TypeError
  | Some row =>
      Ok {| grid := <[Z.to_nat r := Array.set row c v]> (grid this);
            ts := ts this;
            start := start this |}
  end.

(** The inner loop of [findStart] over the columns [cs] of row [r]. *)
Fixpoint scanCols (this : t) (r : Z) (cs : list Z) : result (option (Z * Z)) :=
  match cs with
  | [] => Ok None
  | c :: cs' =>
      let* v := tileAt this r c in
      if strict_eq v START then Ok (Some (r, c)) else scanCols this r cs'
  end.

(** The outer loop of [findStart] over the rows [rs]; the inner loop's
    bound [this.cols()] is evaluated on entering each row. *)
Fixpoint scanRows (this : t) (rs : list Z) : result (option (Z * Z)) :=
  match rs with
  | [] => Ok None
  | r :: rs' =>
      let* n := cols this in
      let* found := scanCols this r (seqZ 0 n) in
      match found with
      | Some s => Ok (Some s)
      | None => scanRows this rs'
      end
  end.

Definition findStart (this : t) : result (option (Z * Z)) :=
  scanRows this (seqZ 0 (rows this)).

(** [new Level(grid, tileSize)] *)
Definition new (grid0 : list Array.t) (tileSize : float) : result t :=
  let this := {| grid := grid0; ts := tileSize; start := None |} in
  let* s := findStart this in
  let this := {| grid := grid0; ts := tileSize; start := s |} in
  match s with
  | Some (r, c) => setTile this r c FLOOR
  | None => Ok this
  end.

End Level.


(** ** Numbers that cross from the integer side to the pixel side *)

(** The binary64 value of an integer (round to nearest even). *)
Definition num_of_Z (z : Z) : float :=
  SF2Prim (binary_normalize prec emax z 0 false).

(** ToNumber on a field that holds [null] or an integer: [null] counts as 0
    in arithmetic. *)
Definition num_of_nullable (v : option Z) : float :=
  match v with
  | Some z => num_of_Z z
  | None => 0%float
  end.

(** ** Player.js *)
Module Player.

Record t : Type := mk {
  ts : float;
  r : Z;
  c : Z;
  movedAt : Z;
  moveDelay : Z;
  keysCollected : Z;
  moving : bool;
  targetR : option Z;
  targetC : option Z;
  px : float;
  py : float;
  speed : float;
  arrivedThisFrame : bool;
  dirR : Z;
  dirC : Z
}.

(** [new Player(tileSize)] *)
Definition new (tileSize : float) : t :=
  {| ts := tileSize; r := 0; c := 0; movedAt := 0; moveDelay := 90;
     keysCollected := 0; moving := false; targetR := None; targetC := None;
     px := 0%float; py := 0%float; speed := 130%float;
     arrivedThisFrame := false; dirR := 0; dirC := 0 |}.

(** Pixel centre of a tile index: [i * this.ts + this.ts / 2]. *)
Definition centre (this : t) (i : float) : float :=
  (i * ts this + ts this / 2)%float.

Definition setCell (this : t) (r0 c0 : Z) : t :=
  {| ts := ts this; r := r0; c := c0; movedAt := movedAt this;
     moveDelay := moveDelay this; keysCollected := keysCollected this;
     moving := moving this; targetR := targetR this; targetC := targetC this;
     px := centre this (num_of_Z c0); py := centre this (num_of_Z r0);
     speed := speed this; arrivedThisFrame := false;
     dirR := dirR this; dirC := dirC this |}.

Definition resetKey (this : t) : t :=
  {| ts := ts this; r := r this; c := c this; movedAt := movedAt this;
     moveDelay := moveDelay this; keysCollected := 0;
     moving := moving this; targetR := targetR this; targetC := targetC this;
     px := px this; py := py this; speed := speed this;
     arrivedThisFrame := arrivedThisFrame this;
     dirR := dirR this; dirC := dirC this |}.

Definition pixelX (this : t) : float := centre this (num_of_Z (c this)).

Definition pixelY (this : t) : float := centre this (num_of_Z (r this)).

(** [this.dirR = dr; this.dirC = dc] *)
Definition setDir (this : t) (dr dc : Z) : t :=
  {| ts := ts this; r := r this; c := c this; movedAt := movedAt this;
     moveDelay := moveDelay this; keysCollected := keysCollected this;
     moving := moving this; targetR := targetR this; targetC := targetC this;
     px := px this; py := py this; speed := speed this;
     arrivedThisFrame := arrivedThisFrame this;
     dirR := dr; dirC := dc |}.

(** [this.targetR = nr; this.targetC = nc; this.moving = true] *)
Definition startMove (this : t) (nr nc : Z) : t :=
  {| ts := ts this; r := r this; c := c this; movedAt := movedAt this;
     moveDelay := moveDelay this; keysCollected := keysCollected this;
     moving := true; targetR := Some nr; targetC := Some nc;
     px := px this; py := py this; speed := speed this;
     arrivedThisFrame := arrivedThisFrame this;
     dirR := dirR this; dirC := dirC this |}.

(** [this.px = x; this.py = y] *)
Definition setPixel (this : t) (x y : float) : t :=
  {| ts := ts this; r := r this; c := c this; movedAt := movedAt this;
     moveDelay := moveDelay this; keysCollected := keysCollected this;
     moving := moving this; targetR := targetR this; targetC := targetC this;
     px := x; py := y; speed := speed this;
     arrivedThisFrame := arrivedThisFrame this;
     dirR := dirR this; dirC := dirC this |}.

(** [this.keysCollected = k] *)
Definition setKeys (this : t) (k : Z) : t :=
  {| ts := ts this; r := r this; c := c this; movedAt := movedAt this;
     moveDelay := moveDelay this; keysCollected := k;
     moving := moving this; targetR := targetR this; targetC := targetC this;
     px := px this; py := py this; speed := speed this;
     arrivedThisFrame := arrivedThisFrame this;
     dirR := dirR this; dirC := dirC this |}.

(** [this.arrivedThisFrame = false] *)
Definition clearArrived (this : t) : t :=
  {| ts := ts this; r := r this; c := c this; movedAt := movedAt this;
     moveDelay := moveDelay this; keysCollected := keysCollected this;
     moving := moving this; targetR := targetR this; targetC := targetC this;
     px := px this; py := py this; speed := speed this;
     arrivedThisFrame := false;
     dirR := dirR this; dirC := dirC this |}.

Definition canMoveTo (this : t) (level : Level.t) (nr nc : Z) : result bool :=
  let* inb := Level.inBounds level nr nc in
  if negb inb then Ok false else
  let* wall := Level.isWall level nr nc in
  if wall then Ok false else
  let* gate := Level.isGate level nr nc in
  if gate && (keysCollected this =? 0) then Ok false else
  Ok true.

Definition tryMove (this : t) (level : Level.t) (dr dc : Z) : result (bool * t) :=
  let this := setDir this dr dc in
  if moving this then Ok (true, this) else
  let nr := r this + dr in
  let nc := c this + dc in
  let* ok := canMoveTo this level nr nc in
  if negb ok then Ok (false, this) else
  Ok (true, startMove this nr nc).

Definition tryContinue (this : t) (level : Level.t) : result (bool * t) :=
  if moving this then Ok (true, this) else
  if (dirR this =? 0) && (dirC this =? 0) then Ok (false, this) else
  let nr := r this + dirR this in
  let nc := c this + dirC this in
  let* ok := canMoveTo this level nr nc in
  if negb ok then Ok (false, this) else
  Ok (true, startMove this nr nc).

(** [finishMove] commits the target as the new cell.  The cell fields are
    integers in this embedding, so committing a [null] target (which would
    store [null] in [r] and [c]) is left outside it: [None].  [moving] is
    only ever set together with both targets, so no call sequence starting
    from [new] gets there (see [moving_has_target]). *)
Definition finishMove (this : t) : option t :=
  match targetR this, targetC this with
  | Some tr, Some tc =>
      Some {| ts := ts this; r := tr; c := tc; movedAt := movedAt this;
              moveDelay := moveDelay this; keysCollected := keysCollected this;
              moving := false; targetR := targetR this; targetC := targetC this;
              px := px this; py := py this; speed := speed this;
              arrivedThisFrame := true;
              dirR := dirR this; dirC := dirC this |}
  | _, _ => None
  end.

(** The quantities [update] computes from the state and p5's [deltaTime]. *)
Definition targetPx (this : t) : float := centre this (num_of_nullable (targetC this)).

Definition targetPy (this : t) : float := centre this (num_of_nullable (targetR this)).

Definition dx (this : t) : float := (targetPx this - px this)%float.

Definition dy (this : t) : float := (targetPy this - py this)%float.

Definition dist (this : t) : float :=
  PrimFloat.sqrt (dx this * dx this + dy this * dy this)%float.

Definition step (this : t) (deltaTime : float) : float :=
  (speed this * (deltaTime / 1000))%float.

(** [update()], with the p5 global [deltaTime] (milliseconds) as argument. *)
Definition update (this : t) (deltaTime : float) : option t :=
  if negb (moving this) then Some this else
  if (dist this =? 0)%float then finishMove this else
  if (dist this <=? step this deltaTime)%float then
    finishMove (setPixel this (targetPx this) (targetPy this))
  else
    Some (setPixel this
            (px this + dx this / dist this * step this deltaTime)%float
            (py this + dy this / dist this * step this deltaTime)%float).

(** [handleArrival(level)] mutates both the level's grid and the player.
    [keysCollected++] is written as [+ 1] on [Z]: that is the binary64
    result for a counter below 2^53; at 2^53 the binary64 sum rounds back
    to 2^53 (lemma [increment_boundary]), so statements that name the value
    after a pickup carry that bound. *)
Definition handleArrival (this : t) (level : Level.t) : result (Level.t * t) :=
  let* key := Level.isKey level (r this) (c this) in
  let* (level, this) :=
    if key then
      let this := setKeys this (keysCollected this + 1) in
      let* level := Level.setTile level (r this) (c this) 0 in
      Ok (level, this)
    else Ok (level, this) in
  let* gate := Level.isGate level (r this) (c this) in
  let* (level, this) :=
    if gate then
      let this := setKeys this (Z.max 0 (keysCollected this - 1)) in
      let* level := Level.setTile level (r this) (c this) 0 in
      Ok (level, this)
    else Ok (level, this) in
  Ok (level, clearArrived this).

End Player.


(** ** The arithmetic of [update], over any number system

    What [update] computes between its early return and [finishMove], with
    the operations of the number system as a parameter: from the pixel
    position [(x, y)], the target centre [(tx, ty)] and the step, either the
    position at which the move is over or the position after one more step.
    Instantiated with binary64 it is the computation of [update] itself
    (lemma [update_advance]); instantiated with the real numbers it is the
    same formulas evaluated without rounding. *)
Module Motion.

Record arith (N : Type) : Type := mk_arith {
  zero : N;
  add : N -> N -> N;
  sub : N -> N -> N;
  mul : N -> N -> N;
  div : N -> N -> N;
  sqrt : N -> N;
  eqb : N -> N -> bool;
  leb : N -> N -> bool
}.
Arguments zero {N} _.
Arguments add {N} _ _ _.
Arguments sub {N} _ _ _.
Arguments mul {N} _ _ _.
Arguments div {N} _ _ _.
Arguments sqrt {N} _ _.
Arguments eqb {N} _ _ _.
Arguments leb {N} _ _ _.

(** [Stop x y]: the move is over, with the pixel position [(x, y)];
    [Move x y]: the move goes on, from the pixel position [(x, y)]. *)
Inductive outcome (N : Type) : Type :=
| Stop (x y : N)
| Move (x y : N).
Arguments Stop {N} x y.
Arguments Move {N} x y.

Section Advance.
Context {N : Type} (A : arith N).

(** [Math.sqrt(dx * dx + dy * dy)] *)
Definition distance (x y tx ty : N) : N :=
  let dx := sub A tx x in
  let dy := sub A ty y in
  sqrt A (add A (mul A dx dx) (mul A dy dy)).

Definition advance (x y tx ty step : N) : outcome N :=
  let dx := sub A tx x in
  let dy := sub A ty y in
  let dist := distance x y tx ty in
  if eqb A dist (zero A) then Stop x y else
  if leb A dist step then Stop tx ty else
  Move (add A x (mul A (div A dx dist) step))
       (add A y (mul A (div A dy dist) step)).

End Advance.

(** JavaScript's numbers. *)
Definition binary64 : arith float :=
  {| zero := 0%float; add := PrimFloat.add; sub := PrimFloat.sub;
     mul := PrimFloat.mul; div := PrimFloat.div; sqrt := PrimFloat.sqrt;
     eqb := PrimFloat.eqb; leb := PrimFloat.leb |}.

(** The real numbers: the same operations without rounding. *)
Definition exact : arith R :=
  {| zero := 0%R; add := Rplus; sub := Rminus; mul := Rmult; div := Rdiv;
     sqrt := R_sqrt.sqrt;
     eqb := fun a b => if Req_dec_T a b then true else false;
     leb := fun a b => if Rle_dec a b then true else false |}.

End Motion.


(** ** sketch.js: the calls the orchestrator makes into the two classes *)
Module Sketch.

Definition TS : float := 32%float.

(** [loadLevel(idx)], as far as the player is concerned: the key reset, the
    placement on the level's start (or on (1,1) when it has none) and the
    direct resets of the movement fields.  The canvas resize that follows
    them is not modelled. *)
Definition loadLevel (level : Level.t) (player : Player.t) : Player.t :=
  let player := Player.resetKey player in
  let player :=
    match Level.start level with
    | Some (r, c) => Player.setCell player r c
    | None => Player.setCell player 1 1
    end in
  {| Player.ts := Player.ts player; Player.r := Player.r player;
     Player.c := Player.c player; Player.movedAt := Player.movedAt player;
     Player.moveDelay := Player.moveDelay player;
     Player.keysCollected := Player.keysCollected player;
     Player.moving := false;
     Player.targetR := Player.targetR player;
     Player.targetC := Player.targetC player;
     Player.px := Player.px player; Player.py := Player.py player;
     Player.speed := Player.speed player;
     Player.arrivedThisFrame := false;
     Player.dirR := 0; Player.dirC := 0 |}.

(** [player.draw()] over consecutive frames: one [update] per frame, each
    with that frame's [deltaTime]. *)
Fixpoint frames (player : Player.t) (deltaTimes : list float) : option Player.t :=
  match deltaTimes with
  | [] => Some player
  | dt :: rest =>
      match Player.update player dt with
      | Some player' => frames player' rest
      | None => None
      end
  end.

End Sketch.

(** ** sketch.js: the globals and the p5 callbacks

    The sketch's global variables are gathered in one record; each callback
    maps the record to the record it leaves.  Drawing calls ([background],
    [text], [rect], [Level.draw], the HUD and the two screens) read the
    state and never write it, so they do not appear.  A callback that raises
    is cut short where it raises: [Throw] and [Raised] say that it did, and
    what the sketch does after an uncaught exception is not modelled. *)
Module Game.

(** The key codes p5 exports. *)
Record p5 : Type := {
  LEFT_ARROW : Z;
  RIGHT_ARROW : Z;
  UP_ARROW : Z;
  DOWN_ARROW : Z
}.

(** [levels], [li], [player], [hasWon], [showStart]. *)
Record t : Type := mk {
  levels : list Level.t;
  li : Z;
  player : Player.t;
  hasWon : bool;
  showStart : bool
}.

(** [levels[i]] *)
Definition level_at (levels : list Level.t) (i : Z) : option Level.t :=
  if i <? 0 then None else levels !! Z.to_nat i.

(** [grid.map((row) => row.slice())] *)
Definition copyGrid (grid : list Array.t) : list Array.t :=
  Array.slice <$> grid.

(** [levelsData.levels.map((grid) => new Level(copyGrid(grid), TS))] *)
Fixpoint buildLevels (levelsData : list (list Array.t)) : result (list Level.t) :=
  match levelsData with
  | [] => Ok []
  | grid :: rest =>
      let* level := Level.new (copyGrid grid) Sketch.TS in
      let* levels := buildLevels rest in
      Ok (level :: levels)
  end.

(** [loadLevel(idx)]: reading [level.start] raises when there is no level
    [idx], and sizing the canvas raises when the level has no row. *)
Definition loadLevel (g : t) (idx : Z) : result t :=
  match level_at (levels g) idx with
  | None => Throw TypeError
  | Some level =>
      let player := Sketch.loadLevel level (player g) in
      let* _ := Level.pixelWidth level in
      Ok {| levels := levels g; li := idx; player := player;
            hasWon := hasWon g; showStart := showStart g |}
  end.

(** [setup()], from the parsed [levelsData.levels] and the initial values of
    the globals. *)
Definition setup (levelsData : list (list Array.t)) : result t :=
  let* levels := buildLevels levelsData in
  loadLevel {| levels := levels; li := 0; player := Player.new Sketch.TS;
               hasWon := false; showStart := true |} 0.

Definition restartGame (g : t) : result t :=
  loadLevel {| levels := levels g; li := li g; player := player g;
               hasWon := false; showStart := true |} 0.

(** The direction [keyPressed] reads off [key] and [keyCode]; [None] when
    the key is not a movement key. *)
Definition direction (k : p5) (key : string) (keyCode : Z) : option (Z * Z) :=
  if (keyCode =? LEFT_ARROW k) || String.eqb key "a" || String.eqb key "A"
  then Some (0, -1)
  else if (keyCode =? RIGHT_ARROW k) || String.eqb key "d" || String.eqb key "D"
  then Some (0, 1)
  else if (keyCode =? UP_ARROW k) || String.eqb key "w" || String.eqb key "W"
  then Some (-1, 0)
  else if (keyCode =? DOWN_ARROW k) || String.eqb key "s" || String.eqb key "S"
  then Some (1, 0)
  else None.

(** [player.tryMove(levels[li], dr, dc)]: with no level [li], [tryMove]
    still answers while the player is moving and raises at the bounds check
    otherwise. *)
Definition tryMove_current (g : t) (dr dc : Z) : result Player.t :=
  match level_at (levels g) (li g) with
  | Some level =>
      let* (_, p) := Player.tryMove (player g) level dr dc in Ok p
  | None =>
      if Player.moving (player g) then Ok (Player.setDir (player g) dr dc)
      else Throw TypeError
  end.

Definition keyPressed (k : p5) (g : t) (key : string) (keyCode : Z) : result t :=
  if showStart g then
    Ok {| levels := levels g; li := li g; player := player g;
          hasWon := hasWon g; showStart := false |}
  else if hasWon g then
    if String.eqb key " " then restartGame g else Ok g
  else
    match direction k key keyCode with
    | None => Ok g
    | Some (dr, dc) =>
        let* p := tryMove_current g dr dc in
        Ok {| levels := levels g; li := li g; player := p;
              hasWon := hasWon g; showStart := showStart g |}
    end.

(** How a frame ends: with a new state, with an uncaught exception, or at
    the one step the embedding of [Player.update] leaves out. *)
Inductive outcome : Type :=
| Done (g : t)
| Raised (e : exn)
| Unmodelled.

(** The arrival block of [draw], run when [player.arrivedThisFrame] is set:
    resolve the arrival on [levels[li]], test for the goal, and continue in
    the held direction unless the game is won. *)
Definition onArrival (g : t) (level : Level.t) (p : Player.t) : outcome :=
  match Player.handleArrival p level with
  | Throw e => Raised e
  | Ok (level', p') =>
      let levels' := <[Z.to_nat (li g) := level']> (levels g) in
      match Level.isGoal level' (Player.r p') (Player.c p') with
      | Throw e => Raised e
      | Ok true =>
          Done {| levels := levels'; li := li g; player := p';
                  hasWon := true; showStart := showStart g |}
      | Ok false =>
          match Player.tryContinue p' level' with
          | Throw e => Raised e
          | Ok (_, p'') =>
              Done {| levels := levels'; li := li g; player := p'';
                      hasWon := false; showStart := showStart g |}
          end
      end
  end.

(** [draw()], with the p5 global [deltaTime] as argument. *)
Definition draw (g : t) (deltaTime : float) : outcome :=
  if showStart g then Done g
  else if hasWon g then Done g
  else
    match level_at (levels g) (li g) with
    | None => Raised TypeError
    | Some level =>
        match Player.update (player g) deltaTime with
        | None => Unmodelled
        | Some p =>
            if Player.arrivedThisFrame p then onArrival g level p
            else Done {| levels := levels g; li := li g; player := p;
                         hasWon := hasWon g; showStart := showStart g |}
        end
    end.

(** What p5 delivers to the sketch: a frame or a key press. *)
Inductive event : Type :=
| Frame (deltaTime : float)
| Key (key : string) (keyCode : Z).

Definition handle (k : p5) (g : t) (e : event) : outcome :=
  match e with
  | Frame deltaTime => draw g deltaTime
  | Key key keyCode =>
      match keyPressed k g key keyCode with
      | Ok g' => Done g'
      | Throw x => Raised x
      end
  end.

(** The callbacks for a sequence of events, stopping at the first that does
    not finish. *)
Fixpoint run (k : p5) (g : t) (events : list event) : outcome :=
  match events with
  | [] => Done g
  | e :: rest =>
      match handle k g e with
      | Done g' => run k g' rest
      | stopped => stopped
      end
  end.

End Game.

(** ** Rows as shared objects

    Everywhere else a grid is the list of its rows' contents, which is the
    whole story as long as no two grids share a row object.  [copyGrid] is
    there to make that so, and this module is the model in which it can be
    said: row objects live in a heap, by address, and a grid is the list of
    the addresses of its rows.  An address outside the heap does not occur
    in the program; [read] gives it an empty row. *)
Module Store.

Definition read (h : gmap nat Array.t) (refs : list nat) : list Array.t :=
  (fun l => default (Array.mk ∅ 0) (h !! l)) <$> refs.

(** [grid.map((row) => row.slice())]: every [slice] makes a new row object,
    at an address not in use. *)
Fixpoint copyGrid (h : gmap nat Array.t) (refs : list nat)
  : list nat * gmap nat Array.t :=
  match refs with
  | [] => ([], h)
  | l :: rest =>
      let l' := fresh (dom h) in
      let h1 := <[l' := Array.slice (default (Array.mk ∅ 0) (h !! l))]> h in
      let (rest', h2) := copyGrid h1 rest in
      (l' :: rest', h2)
  end.

(** A Level object: [grid] holds the addresses of the rows. *)
Record level : Type := {
  grid : list nat;
  ts : float;
  start : option (Z * Z)
}.

(** The level as the rest of the development sees it. *)
Definition view (h : gmap nat Array.t) (lv : level) : Level.t :=
  {| Level.grid := read h (grid lv); Level.ts := ts lv; Level.start := start lv |}.

(** [this.grid[r][c] = v]: the row object at the address [grid[r]] is
    updated in place. *)
Definition setTile (h : gmap nat Array.t) (refs : list nat) (r c v : Z)
  : result (gmap nat Array.t) :=
  match (if r <? 0 then None else refs !! Z.to_nat r) with
  | None => Throw TypeError
  | Some l => Ok (<[l := Array.set (default (Array.mk ∅ 0) (h !! l)) c v]> h)
  end.

(** [new Level(grid, tileSize)] on the heap: [findStart] only reads, the
    normalization of the start writes one row object. *)
Definition new (h : gmap nat Array.t) (refs : list nat) (tileSize : float)
  : result (gmap nat Array.t * level) :=
  let* s := Level.findStart {| Level.grid := read h refs; Level.ts := tileSize;
                               Level.start := None |} in
  match s with
  | Some (r, c) =>
      let* h' := setTile h refs r c Level.FLOOR in
      Ok (h', {| grid := refs; ts := tileSize; start := s |})
  | None => Ok (h, {| grid := refs; ts := tileSize; start := s |})
  end.

End Store.

(** ** Vocabulary of the statements *)

(** A matrix as the level format means it: every row is a plain array, as
    long as the first row. *)
Definition rectangular (g : list Array.t) : bool :=
  match g with
  | [] => true
  | row0 :: _ =>
      forallb (fun row => Array.dense row
                          && (Array.length row =? Array.length row0)%nat) g
  end.

(** The number of columns [inBounds] works with: the length of the first
    row (0 for a grid without rows, where no cell is in bounds). *)
Definition width (g : list Array.t) : Z :=
  match g with
  | [] => 0
  | row0 :: _ => Z.of_nat (Array.length row0)
  end.

(** The cell [(r, c)] of the level holds the tile code [v]. *)
Definition holds (level : Level.t) (r c v : Z) : Prop :=
  Level.tileAt level r c = Ok (Some v).

(** The four tile predicates all give the outcome [res] at [(r, c)]. *)
Definition tile_predicates (level : Level.t) (r c : Z) (res : result bool) : Prop :=
  Level.isWall level r c = res /\ Level.isGoal level r c = res
  /\ Level.isKey level r c = res /\ Level.isGate level r c = res.

(** [(r1, c1)] comes strictly before [(r2, c2)] in row-major order. *)
Definition row_major_lt (r1 c1 r2 c2 : Z) : Prop :=
  r1 < r2 \/ (r1 = r2 /\ c1 < c2).

(** The keys of a row under which it stores the code [v]. *)
Definition keys_holding (v : Z) (row : Array.t) : list Z :=
  (map_to_list (filter (fun kv => kv.2 = v) (Array.elems row))).*1.

(** All cells of a grid that hold the Start code. *)
Definition start_cells (g : list Array.t) : list (Z * Z) :=
  mjoin (imap (fun r row => pair (Z.of_nat r) <$> keys_holding Level.START row) g).

(** A level as the constructor first sees it. *)
Definition raw (g : list Array.t) (tileSize : float) : Level.t :=
  {| Level.grid := g; Level.ts := tileSize; Level.start := None |}.


(** The invariant that carries a started move through the frames: keys,
    direction and target stay put, and once the move is over the cell is
    the target. *)
Definition in_transit_to (nr nc k dr dc : Z) (p : Player.t) : Prop :=
  Player.keysCollected p = k
  /\ Player.dirR p = dr /\ Player.dirC p = dc
  /\ Player.targetR p = Some nr /\ Player.targetC p = Some nc
  /\ (Player.moving p = false -> Player.r p = nr /\ Player.c p = nc).

(** The player states the program can get into: from [new Player], by any
    call the orchestrator makes, on any level. *)
Inductive reachable : Player.t -> Prop :=
| reach_new tileSize :
    reachable (Player.new tileSize)
| reach_setCell p r c :
    reachable p -> reachable (Player.setCell p r c)
| reach_resetKey p :
    reachable p -> reachable (Player.resetKey p)
| reach_loadLevel p level :
    reachable p -> reachable (Sketch.loadLevel level p)
| reach_tryMove p level dr dc b p' :
    reachable p -> Player.tryMove p level dr dc = Ok (b, p') -> reachable p'
| reach_tryContinue p level b p' :
    reachable p -> Player.tryContinue p level = Ok (b, p') -> reachable p'
| reach_update p dt p' :
    reachable p -> Player.update p dt = Some p' -> reachable p'
| reach_handleArrival p level level' p' :
    reachable p -> Player.handleArrival p level = Ok (level', p') -> reachable p'.

(** The cell [(r, c)] may be entered whatever the keys held: it is in
    bounds and does not hold a Wall. *)
Definition enterable (level : Level.t) (r c : Z) : bool :=
  match Level.inBounds level r c, Level.tileAt level r c with
  | Ok true, Ok v => negb (strict_eq v Level.WALL)
  | _, _ => false
  end.

(** The cell [(r, c)] is one to stand on between frames: in bounds, and
    holding neither a Wall nor a Key or Gate still to be resolved. *)
Definition settled (level : Level.t) (r c : Z) : bool :=
  match Level.inBounds level r c, Level.tileAt level r c with
  | Ok true, Ok v =>
      negb (strict_eq v Level.WALL) && negb (strict_eq v Level.KEY)
      && negb (strict_eq v Level.GATE)
  | _, _ => false
  end.

(** No direction, or one step along one axis. *)
Definition axis_step_or_none (dr dc : Z) : bool :=
  Z.abs dr + Z.abs dc <=? 1.

(** What holds of the sketch's state between any two callbacks once [setup]
    has placed the player on the start of level 0. *)
Definition between_callbacks (g : Game.t) : Prop :=
  Game.li g = 0
  /\ exists level sr sc,
       Game.level_at (Game.levels g) 0 = Some level
       /\ Level.start level = Some (sr, sc)
       /\ settled level sr sc = true
       /\ settled level (Player.r (Game.player g)) (Player.c (Game.player g)) = true
       /\ (Player.moving (Game.player g) = true ->
           exists tr tc,
             Player.targetR (Game.player g) = Some tr
             /\ Player.targetC (Game.player g) = Some tc
             /\ enterable level tr tc = true
             /\ Z.abs (tr - Player.r (Game.player g))
                + Z.abs (tc - Player.c (Game.player g)) = 1)
       /\ Player.arrivedThisFrame (Game.player g) = false
       /\ (Game.hasWon g = true ->
           Player.moving (Game.player g) = false
           /\ Level.isGoal level (Player.r (Game.player g))
                (Player.c (Game.player g)) = Ok true)
       /\ axis_step_or_none (Player.dirR (Game.player g))
            (Player.dirC (Game.player g)) = true.

(** ** Sample data *)

(** Parsed level data on the heap: the rows of the matrix [one_start] at
    the addresses 0 and 1. *)
Definition data_heap : gmap nat Array.t :=
  <[0%nat := Array.of_list [0; 2]]> (<[1%nat := Array.of_list [0; 0]]> ∅).

Definition data_rows : list nat := [0%nat; 1%nat].

(** The key codes of p5.js. *)
Definition p5_keys : Game.p5 :=
  {| Game.LEFT_ARROW := 37; Game.UP_ARROW := 38;
     Game.RIGHT_ARROW := 39; Game.DOWN_ARROW := 40 |}.

(** One level: start (1,1), a key east of it, a gate east of the key, the
    goal south of the gate. *)
Definition demo_data : list (list Array.t) :=
  [[Array.of_list [1; 1; 1; 1; 1];
    Array.of_list [1; 2; 4; 5; 1];
    Array.of_list [1; 0; 0; 3; 1];
    Array.of_list [1; 1; 1; 1; 1]]].

(** Dismiss the start screen, press d, let two long frames pass, press s,
    let one more pass. *)
Definition demo_events : list Game.event :=
  [Game.Key "x" 88; Game.Key "d" 68; Game.Frame 1000%float;
   Game.Frame 1000%float; Game.Key "s" 83; Game.Frame 1000%float].

(** A 3x3 room whose only exit is a gate, east of the floor tile (1,1). *)
Definition gate_room : Level.t :=
  raw [Array.of_list [1; 1; 1]; Array.of_list [1; 0; 5]; Array.of_list [1; 1; 1]]
      Sketch.TS.

(** A 3x3 room with a key east of the floor tile (1,1). *)
Definition key_room : Level.t :=
  raw [Array.of_list [1; 1; 1]; Array.of_list [1; 0; 4]; Array.of_list [1; 1; 1]]
      Sketch.TS.

(** A 2x2 matrix with one start. *)
Definition one_start : list Array.t :=
  [Array.of_list [0; 2]; Array.of_list [0; 0]].

(** A rectangular matrix with two starts. *)
Definition two_starts : list Array.t :=
  [Array.of_list [2; 0]; Array.of_list [0; 2]].

(** A matrix whose second row is longer than its first. *)
Definition ragged : list Array.t :=
  [Array.of_list [0]; Array.of_list [0; 2; 1]].

(** A rectangular matrix with a tile code outside the legend. *)
Definition bad_code : list Array.t :=
  [Array.of_list [0; 7]; Array.of_list [0; 0]].

(** The player placed on (1,1) of a room, holding [k] keys. *)
Definition placed (k : Z) : Player.t :=
  Player.setKeys (Player.setCell (Player.new Sketch.TS) 1 1) k.

(** That player half a frame after an accepted move east: in transit from
    (1,1) to (1,2), still at the pixel centre (48,48) of its old cell, 32
    pixels from the target centre (80,48). *)
Definition in_flight : Player.t :=
  Player.startMove (Player.setDir (placed 1) 0 1) 1 2.

(** The player right after [new], [setCell(1, 1)] and an accepted
    [tryMove] east: in transit from (1,1) to (1,2), with no key, still at
    the pixel centre (48,48) of its old cell. *)
Definition setting_out : Player.t :=
  Player.startMove (Player.setDir (Player.setCell (Player.new Sketch.TS) 1 1) 0 1) 1 2.

(** A corridor: the floor tile (1,1), a key east of it, a gate east of the
    key. *)
Definition corridor : Level.t :=
  raw [Array.of_list [1; 1; 1; 1; 1]; Array.of_list [1; 0; 4; 5; 1];
       Array.of_list [1; 1; 1; 1; 1]]
      Sketch.TS.





(** * Properties *)

(** ** The error monad *)

Lemma bind_Ok {A B : Type} (m : result A) (k : A -> result B) (b : B) :
  bind m k = Ok b -> exists a, m = Ok a /\ k a = Ok b.
Proof. destruct m as [a|e]; simpl; [eauto | discriminate]. Qed.

(** ** Arrays and rows *)

Lemma row_at_Some (g : list Array.t) (r : Z) (row : Array.t) :
  row_at g r = Some row ->
  0 <= r < Z.of_nat (List.length g) /\ g !! Z.to_nat r = Some row.
Proof.
  unfold row_at. destruct (Z.ltb_spec r 0) as [Hneg|Hpos]; [discriminate|].
  intros Hlk. split; [|exact Hlk].
  apply lookup_lt_Some in Hlk. lia.
Qed.

Lemma row_at_in_range (g : list Array.t) (r : Z) :
  0 <= r < Z.of_nat (List.length g) -> exists row, row_at g r = Some row.
Proof.
  intros Hr. unfold row_at.
  destruct (Z.ltb_spec r 0) as [Hneg|_]; [lia|].
  destruct (lookup_lt_is_Some_2 g (Z.to_nat r)) as [row Hrow]; [lia|eauto].
Qed.

Lemma row_at_out_of_range (g : list Array.t) (r : Z) :
  ~ 0 <= r < Z.of_nat (List.length g) -> row_at g r = None.
Proof.
  intros Hr. destruct (row_at g r) as [row|] eqn:E; [|reflexivity].
  apply row_at_Some in E. tauto.
Qed.

Lemma row_at_insert (g : list Array.t) (r0 r : Z) (row0 new_row : Array.t) :
  row_at g r0 = Some row0 ->
  row_at (<[Z.to_nat r0 := new_row]> g) r
  = if decide (r = r0) then Some new_row else row_at g r.
Proof.
  intros H0. apply row_at_Some in H0 as [Hr0 Hlk0].
  unfold row_at. destruct (Z.ltb_spec r 0) as [Hneg|Hpos].
  - destruct (decide (r = r0)); [lia|reflexivity].
  - destruct (decide (r = r0)) as [->|Hne].
    + apply list_lookup_insert_eq. lia.
    + apply list_lookup_insert_ne. lia.
Qed.

Lemma get_set (a : Array.t) (i0 v i : Z) :
  Array.get (Array.set a i0 v) i
  = if decide (i = i0) then Some v else Array.get a i.
Proof.
  unfold Array.get, Array.set; simpl.
  destruct (decide (i = i0)) as [->|Hne].
  - apply lookup_insert_eq.
  - apply lookup_insert_ne. congruence.
Qed.

Lemma dense_get (a : Array.t) (i : Z) :
  Array.dense a = true ->
  (is_Some (Array.get a i) <-> 0 <= i < Z.of_nat (Array.length a)).
Proof.
  unfold Array.dense, Array.get. intros Hd.
  apply bool_decide_eq_true in Hd.
  rewrite <- elem_of_dom, Hd, elem_of_list_to_set, elem_of_seqZ. lia.
Qed.

(** Array literals: [of_list l] stores [l] under the keys [0 .. length-1]
    and nothing else. *)
Lemma of_list_lookup_from (l : list Z) :
  forall (k : nat) (j : Z),
  (list_to_map (imap (fun i x => (Z.of_nat (k + i), x)) l) : gmap Z Z) !! j
  = if decide (Z.of_nat k <= j) then l !! (Z.to_nat j - k)%nat else None.
Proof.
  induction l as [|x l IH]; intros k j.
  - simpl. rewrite lookup_empty. destruct (decide (Z.of_nat k <= j)); reflexivity.
  - rewrite imap_cons. simpl.
    rewrite (imap_ext _ (fun i y => (Z.of_nat (S k + i), y)))
      by (intros i y _; simpl; do 2 f_equal; lia).
    destruct (decide (j = Z.of_nat k)) as [->|Hne].
    + replace (Z.of_nat (k + 0)) with (Z.of_nat k) by lia.
      rewrite lookup_insert_eq, decide_True by lia.
      replace (Z.to_nat (Z.of_nat k) - k)%nat with 0%nat by lia. reflexivity.
    + rewrite lookup_insert_ne by lia. rewrite IH.
      destruct (decide (Z.of_nat k <= j)) as [Hle|Hgt].
      * rewrite decide_True by lia.
        replace (Z.to_nat j - k)%nat with (S (Z.to_nat j - S k)) by lia.
        reflexivity.
      * rewrite decide_False by lia. reflexivity.
Qed.

Lemma get_of_list (l : list Z) (i : Z) :
  Array.get (Array.of_list l) i = if decide (0 <= i) then l !! Z.to_nat i else None.
Proof.
  unfold Array.get, Array.of_list. simpl.
  pose proof (of_list_lookup_from l 0 i) as H. simpl in H.
  change (Z.of_nat 0) with 0 in H. rewrite H.
  destruct (decide (0 <= i)); [|reflexivity].
  f_equal. lia.
Qed.

Lemma dense_of_list (l : list Z) : Array.dense (Array.of_list l) = true.
Proof.
  unfold Array.dense. apply bool_decide_eq_true. apply set_eq. intros i.
  rewrite elem_of_dom, elem_of_list_to_set, elem_of_seqZ.
  fold (Array.get (Array.of_list l) i). rewrite get_of_list. simpl.
  destruct (decide (0 <= i)) as [Hi|Hi].
  - rewrite lookup_lt_is_Some. lia.
  - split; [intros [v Hv]; discriminate Hv | lia].
Qed.

(** A matrix given as rows of one common length is rectangular. *)
Lemma rectangular_of_lists (m : list (list Z)) (n : nat) :
  Forall (fun row => List.length row = n) m ->
  rectangular (Array.of_list <$> m) = true.
Proof.
  intros Hall. unfold rectangular.
  destruct m as [|row0 m']; [reflexivity|].
  change (Array.of_list <$> row0 :: m')
    with (Array.of_list row0 :: (Array.of_list <$> m')).
  apply forallb_forall. intros a Ha.
  change (Array.of_list row0 :: (Array.of_list <$> m'))
    with (Array.of_list <$> row0 :: m') in Ha.
  apply list_elem_of_In, list_elem_of_fmap in Ha as (row & -> & Hrow).
  rewrite dense_of_list. simpl. apply Nat.eqb_eq.
  rewrite Forall_forall in Hall.
  rewrite (Hall row Hrow). symmetry. apply Hall. left.
Qed.

Lemma rectangular_row (g : list Array.t) (k : nat) (row : Array.t) :
  rectangular g = true -> g !! k = Some row ->
  Array.dense row = true /\ Z.of_nat (Array.length row) = width g.
Proof.
  unfold rectangular, width. destruct g as [|row0 g']; [intros _ H; discriminate H|].
  intros Hall Hlk. rewrite forallb_forall in Hall.
  assert (Hin : In row (row0 :: g')).
  { apply list_elem_of_In, list_elem_of_lookup. eauto. }
  apply Hall in Hin. apply andb_true_iff in Hin as [Hd Hlen].
  apply Nat.eqb_eq in Hlen. split; [exact Hd | lia].
Qed.

(** ** Level *)

Lemma cols_width (level : Level.t) :
  0 < Level.rows level -> Level.cols level = Ok (width (Level.grid level)).
Proof.
  unfold Level.rows, Level.cols, width.
  destruct (Level.grid level) as [|row0 g']; simpl; [lia | reflexivity].
Qed.

(** [inBounds] never raises, and tests the index window it is named for. *)
Lemma inBounds_spec (level : Level.t) (r c : Z) :
  Level.inBounds level r c
  = Ok (bool_decide (0 <= r < Level.rows level
                     /\ 0 <= c < width (Level.grid level))).
Proof.
  unfold Level.inBounds.
  destruct (Z.leb_spec 0 r) as [Hr|Hr]; simpl.
  2:{ rewrite bool_decide_eq_false_2; [reflexivity | lia]. }
  destruct (Z.leb_spec 0 c) as [Hc|Hc]; simpl.
  2:{ rewrite bool_decide_eq_false_2; [reflexivity | lia]. }
  destruct (Z.ltb_spec r (Level.rows level)) as [Hlt|Hge]; simpl.
  2:{ rewrite bool_decide_eq_false_2; [reflexivity | lia]. }
  rewrite cols_width by lia. simpl. f_equal.
  destruct (Z.ltb_spec c (width (Level.grid level))).
  - rewrite bool_decide_eq_true_2; [reflexivity | lia].
  - rewrite bool_decide_eq_false_2; [reflexivity | lia].
Qed.

Lemma inBounds_true (level : Level.t) (r c : Z) :
  Level.inBounds level r c = Ok true ->
  0 <= r < Level.rows level /\ 0 <= c < width (Level.grid level).
Proof.
  rewrite inBounds_spec. intros H. injection H as H.
  apply bool_decide_eq_true in H. exact H.
Qed.

Lemma inBounds_false (level : Level.t) (r c : Z) :
  Level.inBounds level r c = Ok false ->
  ~ (0 <= r < Level.rows level /\ 0 <= c < width (Level.grid level)).
Proof.
  rewrite inBounds_spec. intros H. injection H as H.
  apply bool_decide_eq_false in H. exact H.
Qed.

Lemma tileAt_row (level : Level.t) (r c : Z) (row : Array.t) :
  row_at (Level.grid level) r = Some row ->
  Level.tileAt level r c = Ok (Array.get row c).
Proof. unfold Level.tileAt. intros ->. reflexivity. Qed.

Lemma tileAt_no_row (level : Level.t) (r c : Z) :
  row_at (Level.grid level) r = None ->
  Level.tileAt level r c = Throw TypeError.
Proof. unfold Level.tileAt. intros ->. reflexivity. Qed.

Lemma holds_row (level : Level.t) (r c v : Z) :
  holds level r c v ->
  exists row, row_at (Level.grid level) r = Some row /\ Array.get row c = Some v.
Proof.
  unfold holds, Level.tileAt.
  destruct (row_at (Level.grid level) r) as [row|]; [|discriminate].
  intros H. injection H as H. eauto.
Qed.

(** Reading after a write: the written cell holds the new value, every
    other read is as before. *)
Lemma tileAt_setTile (level level' : Level.t) (r0 c0 v r c : Z) :
  Level.setTile level r0 c0 v = Ok level' ->
  Level.tileAt level' r c
  = if decide (r = r0 /\ c = c0) then Ok (Some v) else Level.tileAt level r c.
Proof.
  unfold Level.setTile.
  destruct (row_at (Level.grid level) r0) as [row0|] eqn:E0; [|discriminate].
  intros H. injection H as <-.
  unfold Level.tileAt; simpl. rewrite (row_at_insert _ _ _ _ _ E0).
  destruct (decide (r = r0)) as [->|Hr].
  - rewrite E0, get_set.
    destruct (decide (c = c0)) as [->|Hc].
    + rewrite decide_True by tauto. reflexivity.
    + rewrite decide_False by tauto. reflexivity.
  - rewrite decide_False by tauto. reflexivity.
Qed.

Lemma setTile_on_row (level : Level.t) (r c v : Z) (row : Array.t) :
  row_at (Level.grid level) r = Some row ->
  exists level', Level.setTile level r c v = Ok level'.
Proof. unfold Level.setTile. intros ->. eauto. Qed.

Lemma strict_eq_true (v : option Z) (n : Z) :
  strict_eq v n = true <-> v = Some n.
Proof.
  destruct v as [z|]; simpl.
  - rewrite Z.eqb_eq. split; congruence.
  - split; discriminate.
Qed.

Lemma strict_eq_false (v : option Z) (n : Z) :
  strict_eq v n = false <-> v <> Some n.
Proof.
  rewrite <- strict_eq_true. destruct (strict_eq v n); split; congruence.
Qed.

(** *** The scan of [findStart] *)

(** The inner loop over the columns [a .. a+k-1] of an existing row stops at
    the first of them that holds the Start code. *)
Lemma scanCols_seqZ (level : Level.t) (r : Z) (row : Array.t) (k : nat) :
  row_at (Level.grid level) r = Some row ->
  forall a : Z,
  match Level.scanCols level r (seqZ a (Z.of_nat k)) with
  | Ok (Some (r0, c0)) =>
      r0 = r /\ a <= c0 < a + Z.of_nat k
      /\ Array.get row c0 = Some Level.START
      /\ forall c', a <= c' < c0 -> Array.get row c' <> Some Level.START
  | Ok None =>
      forall c', a <= c' < a + Z.of_nat k -> Array.get row c' <> Some Level.START
  | Throw _ => False
  end.
Proof.
  intros Hrow. induction k as [|k IH]; intros a.
  - simpl. intros c' Hc'. lia.
  - rewrite seqZ_cons by lia.
    replace (Z.pred (Z.of_nat (S k))) with (Z.of_nat k) by lia.
    simpl. rewrite (tileAt_row _ _ _ _ Hrow). simpl.
    destruct (strict_eq (Array.get row a) Level.START) eqn:E.
    + apply strict_eq_true in E. repeat split; try lia. exact E.
    + apply strict_eq_false in E. specialize (IH (Z.succ a)).
      destruct (Level.scanCols level r (seqZ (Z.succ a) (Z.of_nat k)))
        as [[[r0 c0]|]|e]; [| |exact IH].
      * destruct IH as (Hr0 & Hc0 & Hget & Hbefore).
        repeat split; try lia; [exact Hget|].
        intros c' Hc'. destruct (decide (c' = a)) as [->|Hne]; [exact E|].
        apply Hbefore. lia.
      * intros c' Hc'. destruct (decide (c' = a)) as [->|Hne]; [exact E|].
        apply IH. lia.
Qed.

(** The outer loop over the rows [a .. a+k-1], all of them rows of the grid:
    it never raises and stops at the first Start code of the scanned window
    in row-major order. *)
Lemma scanRows_seqZ (level : Level.t) (k : nat) :
  forall a : Z,
  0 <= a -> a + Z.of_nat k <= Level.rows level ->
  match Level.scanRows level (seqZ a (Z.of_nat k)) with
  | Ok (Some (r0, c0)) =>
      a <= r0 < a + Z.of_nat k /\ 0 <= c0 < width (Level.grid level)
      /\ holds level r0 c0 Level.START
      /\ forall r' c', a <= r' -> 0 <= c' < width (Level.grid level) ->
           row_major_lt r' c' r0 c0 -> ~ holds level r' c' Level.START
  | Ok None =>
      forall r' c', a <= r' < a + Z.of_nat k ->
           0 <= c' < width (Level.grid level) -> ~ holds level r' c' Level.START
  | Throw _ => False
  end.
Proof.
  induction k as [|k IH]; intros a Ha Hk.
  - simpl. intros r' c' Hr'. lia.
  - rewrite seqZ_cons by lia.
    replace (Z.pred (Z.of_nat (S k))) with (Z.of_nat k) by lia.
    simpl. rewrite cols_width by lia. simpl.
    destruct (row_at_in_range (Level.grid level) a) as [row Hrow].
    { unfold Level.rows in Hk. lia. }
    assert (Hw : 0 <= width (Level.grid level)).
    { unfold width. destruct (Level.grid level); lia. }
    pose proof (scanCols_seqZ level a row (Z.to_nat (width (Level.grid level)))
                  Hrow 0) as Hscan.
    rewrite Z2Nat.id in Hscan by exact Hw.
    destruct (Level.scanCols level a (seqZ 0 (width (Level.grid level))))
      as [[[r0 c0]|]|e]; simpl; [| |exact Hscan].
    + destruct Hscan as (-> & Hc0 & Hget & Hbefore).
      repeat split; try lia.
      * unfold holds. rewrite (tileAt_row _ _ _ _ Hrow), Hget. reflexivity.
      * intros r' c' Hr' Hc' [Hlt|[-> Hlt]] Hholds; [lia|].
        unfold holds in Hholds.
        rewrite (tileAt_row _ _ _ _ Hrow) in Hholds.
        injection Hholds as Hholds. apply (Hbefore c'); [lia|exact Hholds].
    + assert (Hrow_a : forall c', 0 <= c' < width (Level.grid level) ->
                ~ holds level a c' Level.START).
      { intros c' Hc' Hholds. unfold holds in Hholds.
        rewrite (tileAt_row _ _ _ _ Hrow) in Hholds.
        injection Hholds as Hholds. apply (Hscan c'); [lia|exact Hholds]. }
      specialize (IH (Z.succ a)).
      destruct (Level.scanRows level (seqZ (Z.succ a) (Z.of_nat k)))
        as [[[r0 c0]|]|e].
      * destruct IH as (Hr0 & Hc0 & Hholds & Hbefore); [lia|lia|].
        repeat split; try lia; [exact Hholds|].
        intros r' c' Hr' Hc' Hlt.
        destruct (decide (r' = a)) as [->|Hne]; [apply Hrow_a; lia|].
        apply Hbefore; [lia|lia|exact Hlt].
      * intros r' c' Hr' Hc'.
        destruct (decide (r' = a)) as [->|Hne]; [apply Hrow_a; lia|].
        apply IH; lia.
      * apply IH; lia.
Qed.

(** [findStart] never raises; it returns the first cell of the window
    [0 <= r < rows, 0 <= c < cols] that holds the Start code, in row-major
    order, and [null] when that window holds none. *)
Lemma findStart_window (level : Level.t) :
  match Level.findStart level with
  | Ok (Some (r0, c0)) =>
      0 <= r0 < Level.rows level /\ 0 <= c0 < width (Level.grid level)
      /\ holds level r0 c0 Level.START
      /\ forall r' c', 0 <= r' -> 0 <= c' < width (Level.grid level) ->
           row_major_lt r' c' r0 c0 -> ~ holds level r' c' Level.START
  | Ok None =>
      forall r' c', 0 <= r' < Level.rows level ->
           0 <= c' < width (Level.grid level) -> ~ holds level r' c' Level.START
  | Throw _ => False
  end.
Proof.
  unfold Level.findStart.
  pose proof (scanRows_seqZ level (Z.to_nat (Level.rows level)) 0) as H.
  assert (Hrows : 0 <= Level.rows level) by (unfold Level.rows; lia).
  rewrite Z2Nat.id in H by exact Hrows.
  destruct (Level.scanRows level (seqZ 0 (Level.rows level)))
    as [[[r0 c0]|]|e]; apply H; lia.
Qed.

(** In a rectangular grid every stored value sits inside that window. *)
Lemma rectangular_holds_window (level : Level.t) (r c v : Z) :
  rectangular (Level.grid level) = true -> holds level r c v ->
  0 <= r < Level.rows level /\ 0 <= c < width (Level.grid level).
Proof.
  intros Hrect Hholds. apply holds_row in Hholds as (row & Hrow & Hget).
  apply row_at_Some in Hrow as [Hr Hlk].
  destruct (rectangular_row _ _ _ Hrect Hlk) as [Hd Hlen].
  split; [exact Hr|]. rewrite <- Hlen.
  apply (dense_get row c Hd). rewrite Hget. eauto.
Qed.

(** [start_cells] lists exactly the cells that hold the Start code. *)
Lemma start_cells_holds (level : Level.t) (r c : Z) :
  holds level r c Level.START <-> (r, c) ∈ start_cells (Level.grid level).
Proof.
  unfold start_cells, keys_holding. rewrite list_elem_of_join. split.
  - intros Hholds. apply holds_row in Hholds as (row & Hrow & Hget).
    apply row_at_Some in Hrow as [Hr Hlk].
    eexists. split; [|apply elem_of_lookup_imap; eauto].
    simpl. apply list_elem_of_fmap. exists c. split; [f_equal; lia|].
    apply list_elem_of_fmap. exists (c, Level.START). split; [reflexivity|].
    apply elem_of_map_to_list, map_lookup_filter_Some. split; [exact Hget|reflexivity].
  - intros (cells & Hin & Hcells).
    apply elem_of_lookup_imap in Hcells as (i & row & -> & Hlk).
    apply list_elem_of_fmap in Hin as (c' & Heq & Hin). injection Heq as -> ->.
    apply list_elem_of_fmap in Hin as ([c'' v] & -> & Hin). simpl.
    apply elem_of_map_to_list, map_lookup_filter_Some in Hin as [Hget Hv].
    simpl in Hv. subst v. unfold holds, Level.tileAt, row_at.
    destruct (Z.ltb_spec (Z.of_nat i) 0) as [Hneg|_]; [lia|].
    rewrite Nat2Z.id, Hlk. unfold Array.get. rewrite Hget. reflexivity.
Qed.

Lemma at_most_one_start_cell (level : Level.t) (r1 c1 r2 c2 : Z) :
  (List.length (start_cells (Level.grid level)) <= 1)%nat ->
  holds level r1 c1 Level.START -> holds level r2 c2 Level.START ->
  r1 = r2 /\ c1 = c2.
Proof.
  intros Hlen H1 H2. apply start_cells_holds in H1, H2.
  destruct (start_cells (Level.grid level)) as [|x [|y l]]; simpl in Hlen.
  - inversion H1.
  - apply list_elem_of_singleton in H1, H2. split; congruence.
  - lia.
Qed.

(** [findStart] never raises, and what it returns holds the Start code. *)
Lemma findStart_total (level : Level.t) :
  exists s, Level.findStart level = Ok s
            /\ forall r c, s = Some (r, c) -> holds level r c Level.START.
Proof.
  pose proof (findStart_window level) as Hfind.
  destruct (Level.findStart level) as [[[r0 c0]|]|e]; [| |contradiction].
  - exists (Some (r0, c0)). split; [reflexivity|].
    intros r c Heq. injection Heq as <- <-. apply Hfind.
  - exists None. split; [reflexivity|]. intros r c Heq. discriminate Heq.
Qed.

(** The constructor after its scan: the write that normalizes the recorded
    Start hits an existing cell, so it does not raise, and it changes that
    cell only. *)
Lemma new_after_findStart (g : list Array.t) (tileSize : float) (s : option (Z * Z)) :
  Level.findStart (raw g tileSize) = Ok s ->
  (forall r c, s = Some (r, c) -> holds (raw g tileSize) r c Level.START) ->
  exists level,
    Level.new g tileSize = Ok level
    /\ Level.start level = s
    /\ forall r c,
         Level.tileAt level r c
         = if decide (s = Some (r, c)) then Ok (Some Level.FLOOR)
           else Level.tileAt (raw g tileSize) r c.
Proof.
  intros Hfind Hstart. unfold Level.new. fold (raw g tileSize).
  rewrite Hfind. simpl. destruct s as [[r0 c0]|].
  - destruct (holds_row _ _ _ _ (Hstart r0 c0 eq_refl)) as (row & Hrow & _).
    destruct (setTile_on_row {| Level.grid := g; Level.ts := tileSize;
                                Level.start := Some (r0, c0) |}
                r0 c0 Level.FLOOR row Hrow) as [level Hset].
    exists level. split; [exact Hset|]. split.
    + unfold Level.setTile in Hset. simpl in Hset, Hrow. rewrite Hrow in Hset.
      injection Hset as <-. reflexivity.
    + intros r c. rewrite (tileAt_setTile _ _ _ _ _ r c Hset).
      destruct (decide (r = r0 /\ c = c0)) as [[-> ->]|Hne].
      * rewrite decide_True by reflexivity. reflexivity.
      * rewrite decide_False by (intros Heq; injection Heq as -> ->; tauto).
        reflexivity.
  - exists (raw g tileSize).
    split; [reflexivity|]. split; [reflexivity|].
    intros r c. rewrite decide_False by discriminate. reflexivity.
Qed.

(** *** The tile predicates outside the grid *)

(** C4, as stated, fails.  The predicates do no bounds check of their own
    ([tileAt]: the caller should check [inBounds] first): at a row index
    outside the grid they raise, and in a grid whose second row is longer
    than its first they answer for a cell that [inBounds] rejects. *)
Lemma tile_predicates_out_of_bounds_counterexample :
  (Level.inBounds gate_room (-1) 0 = Ok false
   /\ Level.isWall gate_room (-1) 0 = Throw TypeError)
  /\ (Level.inBounds (raw ragged Sketch.TS) 1 2 = Ok false
      /\ Level.isWall (raw ragged Sketch.TS) 1 2 = Ok true).
Proof. vm_compute. repeat split. Qed.

(** C4, amended: for every grid and every [(r, c)] that is not in bounds,
    if [r] is a row index and the grid is rectangular, each of [isWall],
    [isGoal], [isKey] and [isGate] returns false without raising; if [r] is
    not a row index, each of them raises a TypeError. *)
Theorem tile_predicates_out_of_bounds (level : Level.t) (r c : Z) :
  Level.inBounds level r c = Ok false ->
  (0 <= r < Level.rows level -> rectangular (Level.grid level) = true ->
   tile_predicates level r c (Ok false))
  /\ (~ 0 <= r < Level.rows level ->
      tile_predicates level r c (Throw TypeError)).
Proof.
  intros Hout. apply inBounds_false in Hout. split.
  - intros Hr Hrect.
    destruct (row_at_in_range (Level.grid level) r) as [row Hrow].
    { unfold Level.rows in Hr. exact Hr. }
    assert (Hget : Array.get row c = None).
    { destruct (Array.get row c) as [v|] eqn:E; [|reflexivity].
      exfalso. apply Hout.
      apply (rectangular_holds_window level r c v Hrect).
      unfold holds. rewrite (tileAt_row _ _ _ _ Hrow), E. reflexivity. }
    unfold tile_predicates, Level.isWall, Level.isGoal, Level.isKey, Level.isGate.
    rewrite (tileAt_row _ _ _ _ Hrow), Hget. simpl. tauto.
  - intros Hr.
    unfold tile_predicates, Level.isWall, Level.isGoal, Level.isKey, Level.isGate.
    rewrite tileAt_no_row by (apply row_at_out_of_range; exact Hr).
    simpl. tauto.
Qed.

Lemma tile_predicates_out_of_bounds_witness :
  tile_predicates gate_room 1 7 (Ok false)
  /\ tile_predicates gate_room (-1) 0 (Throw TypeError).
Proof.
  split.
  - apply (tile_predicates_out_of_bounds gate_room 1 7); [reflexivity | | reflexivity].
    vm_compute. split; [discriminate | reflexivity].
  - apply (tile_predicates_out_of_bounds gate_room (-1) 0); [reflexivity|].
    vm_compute. intros [H _]. apply H. reflexivity.
Defined.

(** *** Construction *)

(** C5, as stated, fails: the constructor validates nothing.  A matrix with
    a tile code outside the legend, a non-rectangular matrix and a matrix
    with two Starts each yield a Level object. *)
Lemma construction_accepts_malformed :
  Level.new bad_code Sketch.TS = Ok (raw bad_code Sketch.TS)
  /\ Level.new ragged Sketch.TS = Ok (raw ragged Sketch.TS)
  /\ Level.new two_starts Sketch.TS
     = Ok {| Level.grid := [Array.of_list [0; 0]; Array.of_list [0; 2]];
             Level.ts := Sketch.TS;
             Level.start := Some (0, 0) |}.
Proof. vm_compute. repeat split. Qed.

(** C5, amended: constructing a Level never fails and never signals
    InvalidLevelData.  For every matrix, malformed or not, the constructor
    yields a Level object: its [start] is what [findStart] returns on the
    matrix, and its grid is the matrix with that one cell (if any)
    overwritten with Floor. *)
Theorem construction_never_fails (g : list Array.t) (tileSize : float) :
  exists s level,
    Level.findStart (raw g tileSize) = Ok s
    /\ Level.new g tileSize = Ok level
    /\ Level.start level = s
    /\ forall r c,
         Level.tileAt level r c
         = if decide (s = Some (r, c)) then Ok (Some Level.FLOOR)
           else Level.tileAt (raw g tileSize) r c.
Proof.
  destruct (findStart_total (raw g tileSize)) as (s & Hfind & Hstart).
  destruct (new_after_findStart g tileSize s Hfind Hstart)
    as (level & Hnew & Hs & Htile).
  exists s, level.
  split; [exact Hfind|]. split; [exact Hnew|]. split; [exact Hs | exact Htile].
Qed.

(** C6, as stated, fails on malformed matrices, which the constructor
    accepts.  With two Starts only the first is normalized, so a Start code
    is left in the constructed grid; and in a matrix whose second row is
    longer than its first, [findStart] does not look at the cells past the
    first row's length and returns [null] although a Start is present. *)
Lemma findStart_counterexample :
  (exists level, Level.new two_starts Sketch.TS = Ok level
                 /\ holds level 1 1 Level.START)
  /\ (holds (raw ragged Sketch.TS) 1 1 Level.START
      /\ Level.findStart (raw ragged Sketch.TS) = Ok None).
Proof.
  split.
  - eexists. split; [vm_compute; reflexivity|]. vm_compute. reflexivity.
  - vm_compute. split; reflexivity.
Qed.

(** C6, amended: for every rectangular matrix, [findStart] returns the first
    cell in row-major order that holds the Start code, or [null] if no cell
    holds it; and if the matrix moreover has at most one Start, construction
    succeeds and no cell of the constructed grid holds the Start code. *)
Theorem findStart_rectangular (g : list Array.t) (tileSize : float) :
  rectangular g = true ->
  match Level.findStart (raw g tileSize) with
  | Ok (Some (r0, c0)) =>
      holds (raw g tileSize) r0 c0 Level.START
      /\ forall r' c', row_major_lt r' c' r0 c0 ->
           ~ holds (raw g tileSize) r' c' Level.START
  | Ok None => forall r' c', ~ holds (raw g tileSize) r' c' Level.START
  | Throw _ => False
  end
  /\ ((List.length (start_cells g) <= 1)%nat ->
      exists level, Level.new g tileSize = Ok level
                    /\ forall r c, ~ holds level r c Level.START).
Proof.
  intros Hrect.
  pose proof (findStart_window (raw g tileSize)) as Hfind.
  assert (Hwin : forall r c, holds (raw g tileSize) r c Level.START ->
            0 <= r < Level.rows (raw g tileSize) /\ 0 <= c < width g).
  { intros r c. apply (rectangular_holds_window (raw g tileSize) r c _ Hrect). }
  split.
  - destruct (Level.findStart (raw g tileSize)) as [[[r0 c0]|]|e];
      [| |exact Hfind].
    + destruct Hfind as (_ & _ & Hholds & Hbefore). split; [exact Hholds|].
      intros r' c' Hlt Hh. destruct (Hwin r' c' Hh) as [Hr' Hc'].
      apply (Hbefore r' c'); [lia | exact Hc' | exact Hlt | exact Hh].
    + intros r' c' Hh. destruct (Hwin r' c' Hh) as [Hr' Hc'].
      apply (Hfind r' c'); [exact Hr' | exact Hc' | exact Hh].
  - intros Hone.
    destruct (findStart_total (raw g tileSize)) as (s & Hs & Hstart).
    destruct (new_after_findStart g tileSize s Hs Hstart)
      as (level & Hnew & _ & Htile).
    exists level. split; [exact Hnew|]. intros r c Hh.
    unfold holds in Hh. rewrite Htile in Hh.
    destruct (decide (s = Some (r, c))) as [Heq|Hne]; [discriminate Hh|].
    destruct (Hwin r c Hh) as [Hr Hc].
    rewrite Hs in Hfind. destruct s as [[r0 c0]|].
    + destruct Hfind as (_ & _ & Hholds & _).
      destruct (at_most_one_start_cell (raw g tileSize) r c r0 c0 Hone Hh Hholds)
        as [-> ->].
      apply Hne. reflexivity.
    + apply (Hfind r c); [exact Hr | exact Hc | exact Hh].
Qed.

Lemma findStart_rectangular_witness :
  Level.findStart (raw one_start Sketch.TS) = Ok (Some (0, 1))
  /\ exists level, Level.new one_start Sketch.TS = Ok level
                   /\ forall r c, ~ holds level r c Level.START.
Proof.
  split; [vm_compute; reflexivity|].
  apply (findStart_rectangular one_start Sketch.TS); [reflexivity|].
  vm_compute. lia.
Defined.

(** ** Player *)

(** *** Entering a cell *)

Lemma canMoveTo_out_of_bounds (p : Player.t) (level : Level.t) (nr nc : Z) :
  Level.inBounds level nr nc = Ok false ->
  Player.canMoveTo p level nr nc = Ok false.
Proof. unfold Player.canMoveTo. intros ->. reflexivity. Qed.

Lemma inBounds_tileAt (level : Level.t) (r c : Z) :
  Level.inBounds level r c = Ok true ->
  exists v, Level.tileAt level r c = Ok v.
Proof.
  intros Hin. apply inBounds_true in Hin as [Hr _].
  destruct (row_at_in_range (Level.grid level) r) as [row Hrow].
  { unfold Level.rows in Hr. exact Hr. }
  exists (Array.get row c). apply tileAt_row. exact Hrow.
Qed.

(** Inside the grid the decision depends on the tile read and on the key
    counter only. *)
Lemma canMoveTo_in_bounds (p : Player.t) (level : Level.t) (nr nc : Z) (v : option Z) :
  Level.inBounds level nr nc = Ok true ->
  Level.tileAt level nr nc = Ok v ->
  Player.canMoveTo p level nr nc
  = Ok (negb (strict_eq v Level.WALL)
        && negb (strict_eq v Level.GATE && (Player.keysCollected p =? 0))).
Proof.
  intros Hin Htile.
  unfold Player.canMoveTo, Level.isWall, Level.isGate.
  rewrite Hin, Htile. simpl.
  destruct (strict_eq v Level.WALL); simpl; [reflexivity|].
  destruct (strict_eq v Level.GATE && (Player.keysCollected p =? 0)); reflexivity.
Qed.

(** [canMoveTo] never raises: the bounds check comes first. *)
Lemma canMoveTo_total (p : Player.t) (level : Level.t) (nr nc : Z) :
  exists ok, Player.canMoveTo p level nr nc = Ok ok.
Proof.
  destruct (Level.inBounds level nr nc) as [[|]|e] eqn:Hin.
  - destruct (inBounds_tileAt _ _ _ Hin) as [v Hv].
    rewrite (canMoveTo_in_bounds p _ _ _ v Hin Hv). eauto.
  - rewrite canMoveTo_out_of_bounds by exact Hin. eauto.
  - rewrite inBounds_spec in Hin. discriminate.
Qed.

(** *** tryMove and tryContinue *)

Lemma tryMove_moving (p : Player.t) (level : Level.t) (dr dc : Z) :
  Player.moving p = true ->
  Player.tryMove p level dr dc = Ok (true, Player.setDir p dr dc).
Proof. unfold Player.tryMove. simpl. intros ->. reflexivity. Qed.

Lemma tryMove_idle (p : Player.t) (level : Level.t) (dr dc : Z) (ok : bool) :
  Player.moving p = false ->
  Player.canMoveTo p level (Player.r p + dr) (Player.c p + dc) = Ok ok ->
  Player.tryMove p level dr dc
  = Ok (ok, if ok
            then Player.startMove (Player.setDir p dr dc)
                   (Player.r p + dr) (Player.c p + dc)
            else Player.setDir p dr dc).
Proof.
  unfold Player.tryMove. simpl. intros -> Hcan.
  unfold Player.canMoveTo in *. simpl.
  destruct (Level.inBounds level (Player.r p + dr) (Player.c p + dc))
    as [[|]|e]; simpl in *; [| |discriminate].
  - destruct (Level.isWall level (Player.r p + dr) (Player.c p + dc))
      as [[|]|e]; simpl in *; [| |discriminate].
    + injection Hcan as <-. reflexivity.
    + destruct (Level.isGate level (Player.r p + dr) (Player.c p + dc))
        as [gate|e]; simpl in *; [|discriminate].
      destruct (gate && (Player.keysCollected p =? 0));
        injection Hcan as <-; reflexivity.
  - injection Hcan as <-. reflexivity.
Qed.

(** [tryMove] never raises, and whatever it answers, the state it leaves is
    the old one with the new direction and possibly a started move. *)
Lemma tryMove_cases (p : Player.t) (level : Level.t) (dr dc : Z) :
  exists b,
    Player.tryMove p level dr dc = Ok (b, Player.setDir p dr dc)
    \/ (Player.moving p = false
        /\ Player.tryMove p level dr dc
           = Ok (b, Player.startMove (Player.setDir p dr dc)
                      (Player.r p + dr) (Player.c p + dc))).
Proof.
  destruct (Player.moving p) eqn:Hm.
  - exists true. left. apply tryMove_moving. exact Hm.
  - destruct (canMoveTo_total p level (Player.r p + dr) (Player.c p + dc))
      as [ok Hok].
    exists ok. rewrite (tryMove_idle p level dr dc ok Hm Hok).
    destruct ok; [right; split; reflexivity | left; reflexivity].
Qed.

Lemma tryContinue_idle (p : Player.t) (level : Level.t) (ok : bool) :
  Player.moving p = false ->
  ~ (Player.dirR p = 0 /\ Player.dirC p = 0) ->
  Player.canMoveTo p level (Player.r p + Player.dirR p)
    (Player.c p + Player.dirC p) = Ok ok ->
  Player.tryContinue p level
  = Ok (ok, if ok
            then Player.startMove p (Player.r p + Player.dirR p)
                   (Player.c p + Player.dirC p)
            else p).
Proof.
  unfold Player.tryContinue. intros -> Hdir ->. simpl.
  destruct ((Player.dirR p =? 0) && (Player.dirC p =? 0)) eqn:E.
  - apply andb_true_iff in E as [E1 E2]. apply Z.eqb_eq in E1, E2. tauto.
  - destruct ok; reflexivity.
Qed.

Lemma tryContinue_cases (p : Player.t) (level : Level.t) :
  exists b,
    Player.tryContinue p level = Ok (b, p)
    \/ Player.tryContinue p level
       = Ok (b, Player.startMove p (Player.r p + Player.dirR p)
                  (Player.c p + Player.dirC p)).
Proof.
  unfold Player.tryContinue.
  destruct (Player.moving p); [exists true; left; reflexivity|].
  destruct ((Player.dirR p =? 0) && (Player.dirC p =? 0));
    [exists false; left; reflexivity|].
  destruct (canMoveTo_total p level (Player.r p + Player.dirR p)
              (Player.c p + Player.dirC p)) as [ok ->].
  simpl. exists ok. destruct ok; [right|left]; reflexivity.
Qed.

(** *** update and finishMove *)

(** The branch [update] takes while a move is under way. *)
Lemma update_moving (p : Player.t) (dt : float) :
  Player.moving p = true ->
  Player.update p dt
  = if (Player.dist p =? 0)%float then Player.finishMove p
    else if (Player.dist p <=? Player.step p dt)%float
         then Player.finishMove
                (Player.setPixel p (Player.targetPx p) (Player.targetPy p))
         else Some (Player.setPixel p
                 (Player.px p + Player.dx p / Player.dist p * Player.step p dt)%float
                 (Player.py p + Player.dy p / Player.dist p * Player.step p dt)%float).
Proof. unfold Player.update. intros ->. reflexivity. Qed.

Lemma update_idle (p : Player.t) (dt : float) :
  Player.moving p = false -> Player.update p dt = Some p.
Proof. unfold Player.update. intros ->. reflexivity. Qed.

(** What a frame can do to the player: nothing, a pixel step, or an arrival
    (possibly after the snap to the target centre). *)
Lemma update_cases (p p' : Player.t) (dt : float) :
  Player.update p dt = Some p' ->
  p' = p
  \/ (exists x y, p' = Player.setPixel p x y)
  \/ (Player.moving p = true
      /\ exists q, (q = p \/ exists x y, q = Player.setPixel p x y)
                   /\ Player.finishMove q = Some p').
Proof.
  destruct (Player.moving p) eqn:Hm.
  - rewrite (update_moving p dt Hm).
    destruct (Player.dist p =? 0)%float.
    + intros H. right. right. split; [reflexivity|]. exists p. eauto.
    + destruct (Player.dist p <=? Player.step p dt)%float.
      * intros H. right. right. split; [reflexivity|]. eexists. split; [|exact H].
        right. eauto.
      * intros H. injection H as <-. right. left. eauto.
  - rewrite (update_idle p dt Hm). intros H. injection H as <-. left. reflexivity.
Qed.

Lemma finishMove_Some (q q' : Player.t) :
  Player.finishMove q = Some q' ->
  exists tr tc,
    Player.targetR q = Some tr /\ Player.targetC q = Some tc
    /\ Player.r q' = tr /\ Player.c q' = tc
    /\ Player.moving q' = false /\ Player.arrivedThisFrame q' = true
    /\ Player.targetR q' = Some tr /\ Player.targetC q' = Some tc
    /\ Player.keysCollected q' = Player.keysCollected q
    /\ Player.dirR q' = Player.dirR q /\ Player.dirC q' = Player.dirC q.
Proof.
  unfold Player.finishMove.
  destruct (Player.targetR q) as [tr|]; [|discriminate].
  destruct (Player.targetC q) as [tc|]; [|discriminate].
  intros H. injection H as <-. exists tr, tc. simpl. repeat split.
Qed.

Lemma update_in_transit (nr nc k dr dc : Z) (p p' : Player.t) (dt : float) :
  in_transit_to nr nc k dr dc p -> Player.update p dt = Some p' ->
  in_transit_to nr nc k dr dc p'.
Proof.
  intros (Hk & Hdr & Hdc & Htr & Htc & Hcell) Hup.
  apply update_cases in Hup as [->|[(x & y & ->)|(Hm & q & Hq & Hfin)]].
  - repeat split; try assumption; apply Hcell; assumption.
  - repeat split; try assumption; apply Hcell; assumption.
  - apply finishMove_Some in Hfin
      as (tr & tc & Hqr & Hqc & Hr' & Hc' & _ & _ & Htr' & Htc' & Hk' & Hdr' & Hdc').
    assert (Hsame : Player.targetR q = Player.targetR p
                    /\ Player.targetC q = Player.targetC p
                    /\ Player.keysCollected q = Player.keysCollected p
                    /\ Player.dirR q = Player.dirR p
                    /\ Player.dirC q = Player.dirC p).
    { destruct Hq as [->|(x & y & ->)]; repeat split. }
    destruct Hsame as (E1 & E2 & E3 & E4 & E5).
    unfold in_transit_to.
    assert (tr = nr) by congruence. assert (tc = nc) by congruence. subst tr tc.
    repeat split; congruence.
Qed.

Lemma frames_in_transit (nr nc k dr dc : Z) (dts : list float) :
  forall p p' : Player.t,
  in_transit_to nr nc k dr dc p -> Sketch.frames p dts = Some p' ->
  in_transit_to nr nc k dr dc p'.
Proof.
  induction dts as [|dt dts IH]; intros p p' Hinv; simpl.
  - intros H. injection H as <-. exact Hinv.
  - destruct (Player.update p dt) as [p1|] eqn:Hup; [|discriminate].
    apply IH. exact (update_in_transit _ _ _ _ _ _ _ _ Hinv Hup).
Qed.

(** Frames never touch the key counter or the persisted direction. *)
Lemma update_keeps (p p' : Player.t) (dt : float) :
  Player.update p dt = Some p' ->
  Player.keysCollected p' = Player.keysCollected p
  /\ Player.dirR p' = Player.dirR p /\ Player.dirC p' = Player.dirC p.
Proof.
  intros Hup.
  apply update_cases in Hup as [->|[(x & y & ->)|(Hm & q & Hq & Hfin)]].
  - repeat split.
  - repeat split.
  - apply finishMove_Some in Hfin
      as (tr & tc & _ & _ & _ & _ & _ & _ & _ & _ & Hk' & Hdr' & Hdc').
    destruct Hq as [->|(x & y & ->)]; repeat split; assumption.
Qed.

Lemma frames_keeps (dts : list float) :
  forall p p' : Player.t,
  Sketch.frames p dts = Some p' ->
  Player.keysCollected p' = Player.keysCollected p
  /\ Player.dirR p' = Player.dirR p /\ Player.dirC p' = Player.dirC p.
Proof.
  induction dts as [|dt dts IH]; intros p p'; simpl.
  - intros H. injection H as <-. repeat split.
  - destruct (Player.update p dt) as [p1|] eqn:Hup; [|discriminate].
    intros H. apply IH in H as (E1 & E2 & E3).
    apply update_keeps in Hup as (F1 & F2 & F3).
    repeat split; congruence.
Qed.

(** *** handleArrival *)

(** What [handleArrival] does, by the tile the player stands on: a Key is
    picked up, a Gate costs a key (never going below 0), both are replaced
    by Floor; any other tile is left alone.  It raises exactly when the
    player's row is not a row of the grid. *)
Lemma handleArrival_spec (p : Player.t) (level : Level.t) :
  match Level.tileAt level (Player.r p) (Player.c p) with
  | Throw e => Player.handleArrival p level = Throw e
  | Ok v =>
      if strict_eq v Level.KEY then
        exists level',
          Level.setTile level (Player.r p) (Player.c p) Level.FLOOR = Ok level'
          /\ Player.handleArrival p level
             = Ok (level', Player.clearArrived
                             (Player.setKeys p (Player.keysCollected p + 1)))
      else if strict_eq v Level.GATE then
        exists level',
          Level.setTile level (Player.r p) (Player.c p) Level.FLOOR = Ok level'
          /\ Player.handleArrival p level
             = Ok (level', Player.clearArrived
                             (Player.setKeys p (Z.max 0 (Player.keysCollected p - 1))))
      else Player.handleArrival p level = Ok (level, Player.clearArrived p)
  end.
Proof.
  unfold Player.handleArrival, Level.isKey, Level.isGate.
  destruct (Level.tileAt level (Player.r p) (Player.c p)) as [v|e] eqn:Htile;
    simpl; [|reflexivity].
  assert (Hrow : exists row, row_at (Level.grid level) (Player.r p) = Some row).
  { unfold Level.tileAt in Htile.
    destruct (row_at (Level.grid level) (Player.r p)); [eauto|discriminate]. }
  destruct Hrow as [row Hrow].
  destruct (strict_eq v Level.KEY) eqn:Ekey; simpl.
  - destruct (setTile_on_row level (Player.r p) (Player.c p) Level.FLOOR row Hrow)
      as [level' Hset].
    exists level'. split; [exact Hset|].
    unfold Level.FLOOR in Hset. rewrite Hset. simpl.
    rewrite (tileAt_setTile _ _ _ _ _ (Player.r p) (Player.c p) Hset).
    rewrite decide_True by (split; reflexivity). simpl. reflexivity.
  - rewrite Htile. simpl.
    destruct (strict_eq v Level.GATE) eqn:Egate; simpl; [|reflexivity].
    destruct (setTile_on_row level (Player.r p) (Player.c p) Level.FLOOR row Hrow)
      as [level' Hset].
    exists level'. split; [exact Hset|].
    unfold Level.FLOOR in Hset. rewrite Hset. simpl. reflexivity.
Qed.

(** After [handleArrival] the player is the old one but for the key counter
    and the cleared arrival flag. *)
Lemma handleArrival_player (p p' : Player.t) (level level' : Level.t) :
  Player.handleArrival p level = Ok (level', p') ->
  exists k, p' = Player.clearArrived (Player.setKeys p k)
            /\ (0 <= Player.keysCollected p -> 0 <= k).
Proof.
  pose proof (handleArrival_spec p level) as Hspec.
  destruct (Level.tileAt level (Player.r p) (Player.c p)) as [v|e].
  - destruct (strict_eq v Level.KEY).
    + destruct Hspec as (l1 & _ & ->). intros H. injection H as _ <-.
      eexists. split; [reflexivity|]. lia.
    + destruct (strict_eq v Level.GATE).
      * destruct Hspec as (l1 & _ & ->). intros H. injection H as _ <-.
        eexists. split; [reflexivity|]. lia.
      * rewrite Hspec. intros H. injection H as _ <-.
        exists (Player.keysCollected p). split; [|tauto].
        destruct p; reflexivity.
  - rewrite Hspec. discriminate.
Qed.

(** ** The claims about the player *)

(** C1: the gate rule.  For every player state and level, and every move
    (dr, dc) whose neighbour cell is an in-bounds cell holding a Gate: with
    no keys [canMoveTo] returns false; with at least one key it returns
    true, the move from rest is accepted, and whenever the frames that
    follow bring the player to rest, [handleArrival] there leaves the gate
    cell holding Floor and the key counter exactly one lower. *)
Theorem gate_rule (p : Player.t) (level : Level.t) (dr dc : Z) :
  Level.inBounds level (Player.r p + dr) (Player.c p + dc) = Ok true ->
  holds level (Player.r p + dr) (Player.c p + dc) Level.GATE ->
  (Player.keysCollected p = 0 ->
   Player.canMoveTo p level (Player.r p + dr) (Player.c p + dc) = Ok false)
  /\ (1 <= Player.keysCollected p ->
      Player.canMoveTo p level (Player.r p + dr) (Player.c p + dc) = Ok true
      /\ (Player.moving p = false ->
          Player.tryMove p level dr dc
          = Ok (true, Player.startMove (Player.setDir p dr dc)
                        (Player.r p + dr) (Player.c p + dc))
          /\ forall dts p2,
               Sketch.frames
                 (Player.startMove (Player.setDir p dr dc)
                    (Player.r p + dr) (Player.c p + dc)) dts = Some p2 ->
               Player.moving p2 = false ->
               exists level' p3,
                 Player.handleArrival p2 level = Ok (level', p3)
                 /\ holds level' (Player.r p + dr) (Player.c p + dc) Level.FLOOR
                 /\ Player.keysCollected p3 = Player.keysCollected p - 1)).
Proof.
  intros Hin Hgate.
  pose proof (canMoveTo_in_bounds p level _ _ _ Hin Hgate) as Hcan.
  simpl in Hcan. split.
  - intros Hk. rewrite Hcan, Hk. reflexivity.
  - intros Hk.
    assert (Hcan' : Player.canMoveTo p level (Player.r p + dr) (Player.c p + dc)
                    = Ok true).
    { rewrite Hcan. destruct (Z.eqb_spec (Player.keysCollected p) 0); [lia|reflexivity]. }
    split; [exact Hcan'|]. intros Hidle.
    split; [exact (tryMove_idle p level dr dc true Hidle Hcan')|].
    intros dts p2 Hframes Hrest.
    assert (Hinv : in_transit_to (Player.r p + dr) (Player.c p + dc)
                     (Player.keysCollected p) dr dc
                     (Player.startMove (Player.setDir p dr dc)
                        (Player.r p + dr) (Player.c p + dc))).
    { unfold in_transit_to. simpl. repeat split; discriminate. }
    apply (frames_in_transit _ _ _ _ _ dts _ p2 Hinv) in Hframes
      as (Hk2 & _ & _ & _ & _ & Hcell).
    destruct (Hcell Hrest) as [Hr2 Hc2].
    pose proof (handleArrival_spec p2 level) as Hspec.
    rewrite Hr2, Hc2, Hgate in Hspec. simpl in Hspec.
    destruct Hspec as (level' & Hset & Harr).
    exists level', (Player.clearArrived
                      (Player.setKeys p2 (Z.max 0 (Player.keysCollected p2 - 1)))).
    split; [exact Harr|]. split.
    + unfold holds. rewrite (tileAt_setTile _ _ _ _ _ _ _ Hset).
      rewrite decide_True by (split; reflexivity). reflexivity.
    + simpl. lia.
Qed.

Lemma gate_rule_witness :
  Player.canMoveTo (placed 0) gate_room 1 2 = Ok false
  /\ exists p2 level' p3,
       Sketch.frames in_flight [1000%float] = Some p2
       /\ Player.handleArrival p2 gate_room = Ok (level', p3)
       /\ holds level' 1 2 Level.FLOOR
       /\ Player.keysCollected p3 = 0.
Proof.
  split.
  - apply (gate_rule (placed 0) gate_room 0 1); reflexivity.
  - destruct (gate_rule (placed 1) gate_room 0 1 eq_refl eq_refl) as [_ H].
    destruct H as [_ H]; [vm_compute; discriminate|].
    destruct (H eq_refl) as [_ Harr].
    destruct (Harr [1000%float] _ eq_refl eq_refl) as (level' & p3 & H1 & H2 & H3).
    eexists _, level', p3. split; [reflexivity|].
    split; [exact H1|]. split; [exact H2 | exact H3].
Defined.

(** C2: in every reachable player state the key counter is a non-negative
    integer; in particular it is non-negative before every call of
    [handleArrival], on any level, and after it. *)
Theorem keysCollected_nonnegative (p : Player.t) :
  reachable p ->
  0 <= Player.keysCollected p
  /\ forall level level' p',
       Player.handleArrival p level = Ok (level', p') ->
       0 <= Player.keysCollected p'.
Proof.
  intros Hreach.
  assert (Hk : 0 <= Player.keysCollected p).
  { induction Hreach as
      [ tileSize | p r c _ IH | p _ IH | p level _ IH
      | p level dr dc b p' _ IH Hmove | p level b p' _ IH Hcont
      | p dt p' _ IH Hup | p level level' p' _ IH Harr ].
    - simpl. lia.
    - exact IH.
    - simpl. lia.
    - unfold Sketch.loadLevel. destruct (Level.start level) as [[r c]|]; simpl; lia.
    - destruct (tryMove_cases p level dr dc) as [b' [H|[_ H]]];
        rewrite H in Hmove; injection Hmove as _ <-; exact IH.
    - destruct (tryContinue_cases p level) as [b' [H|H]];
        rewrite H in Hcont; injection Hcont as _ <-; exact IH.
    - apply update_keeps in Hup as (-> & _ & _). exact IH.
    - apply handleArrival_player in Harr as (k & -> & Hk). simpl. auto. }
  split; [exact Hk|].
  intros level level' p' Harr.
  apply handleArrival_player in Harr as (k & -> & Hk'). simpl. auto.
Qed.

Lemma keysCollected_nonnegative_witness :
  0 <= Player.keysCollected (Player.setCell (Player.new Sketch.TS) 1 2)
  /\ forall level level' p',
       Player.handleArrival (Player.setCell (Player.new Sketch.TS) 1 2) level
       = Ok (level', p') ->
       0 <= Player.keysCollected p'.
Proof.
  apply (keysCollected_nonnegative (Player.setCell (Player.new Sketch.TS) 1 2)).
  apply reach_setCell, reach_new.
Defined.

(** C7: [handleArrival] is idempotent.  Whenever it returns, the arrival
    flag is cleared, and calling it again on the level and player it left
    returns that same level and player: no key is collected twice and no
    second key is paid for the same gate. *)
Theorem handleArrival_idempotent (p p1 : Player.t) (level level1 : Level.t) :
  Player.handleArrival p level = Ok (level1, p1) ->
  Player.arrivedThisFrame p1 = false
  /\ Player.handleArrival p1 level1 = Ok (level1, p1).
Proof.
  intros Harr.
  pose proof (handleArrival_spec p level) as Hspec.
  assert (Hfloor_again : forall k level',
    Level.setTile level (Player.r p) (Player.c p) Level.FLOOR = Ok level' ->
    Player.handleArrival (Player.clearArrived (Player.setKeys p k)) level'
    = Ok (level', Player.clearArrived (Player.setKeys p k))).
  { intros k level' Hset.
    pose proof (handleArrival_spec (Player.clearArrived (Player.setKeys p k)) level')
      as Hspec'.
    simpl in Hspec'.
    rewrite (tileAt_setTile _ _ _ _ _ _ _ Hset) in Hspec'.
    rewrite decide_True in Hspec' by (split; reflexivity).
    simpl in Hspec'. exact Hspec'. }
  destruct (Level.tileAt level (Player.r p) (Player.c p)) as [v|e] eqn:Htile.
  - destruct (strict_eq v Level.KEY) eqn:Ekey.
    + destruct Hspec as (level' & Hset & Heq). rewrite Heq in Harr.
      injection Harr as <- <-. split; [reflexivity|].
      apply Hfloor_again. exact Hset.
    + destruct (strict_eq v Level.GATE) eqn:Egate.
      * destruct Hspec as (level' & Hset & Heq). rewrite Heq in Harr.
        injection Harr as <- <-. split; [reflexivity|].
        apply Hfloor_again. exact Hset.
      * rewrite Hspec in Harr. injection Harr as <- <-. split; [reflexivity|].
        pose proof (handleArrival_spec (Player.clearArrived p) level) as Hspec'.
        simpl in Hspec'. rewrite Htile, Ekey, Egate in Hspec'. exact Hspec'.
  - rewrite Hspec in Harr. discriminate.
Qed.

Lemma handleArrival_idempotent_witness :
  exists level1 p1,
    Player.handleArrival (Player.setCell (placed 0) 1 2) key_room = Ok (level1, p1)
    /\ Player.keysCollected p1 = 1
    /\ holds level1 1 2 Level.FLOOR
    /\ Player.arrivedThisFrame p1 = false
    /\ Player.handleArrival p1 level1 = Ok (level1, p1).
Proof.
  eexists _, _. split; [vm_compute; reflexivity|].
  split; [reflexivity|]. split; [vm_compute; reflexivity|].
  apply (handleArrival_idempotent (Player.setCell (placed 0) 1 2) _ key_room).
  vm_compute. reflexivity.
Defined.

(** C8: frame condition on rejection.  For every player at rest and every
    direction whose neighbour cell fails [canMoveTo], [tryMove] returns
    false and leaves the cell, the pixel position, [moving] and the target
    as they were: only the persisted direction changes. *)
Theorem tryMove_rejected (p : Player.t) (level : Level.t) (dr dc : Z) :
  Player.moving p = false ->
  Player.canMoveTo p level (Player.r p + dr) (Player.c p + dc) = Ok false ->
  exists p',
    Player.tryMove p level dr dc = Ok (false, p')
    /\ p' = Player.setDir p dr dc
    /\ Player.r p' = Player.r p /\ Player.c p' = Player.c p
    /\ Player.px p' = Player.px p /\ Player.py p' = Player.py p
    /\ Player.moving p' = Player.moving p
    /\ Player.targetR p' = Player.targetR p
    /\ Player.targetC p' = Player.targetC p.
Proof.
  intros Hidle Hcan. exists (Player.setDir p dr dc).
  rewrite (tryMove_idle p level dr dc false Hidle Hcan). simpl. repeat split.
Qed.

Lemma tryMove_rejected_witness :
  exists p',
    Player.tryMove (placed 0) gate_room 0 (-1) = Ok (false, p')
    /\ p' = Player.setDir (placed 0) 0 (-1)
    /\ Player.r p' = 1 /\ Player.c p' = 1
    /\ Player.px p' = 48%float /\ Player.py p' = 48%float
    /\ Player.moving p' = false
    /\ Player.targetR p' = None
    /\ Player.targetC p' = None.
Proof.
  apply (tryMove_rejected (placed 0) gate_room 0 (-1)); reflexivity.
Defined.

(** What makes [canMoveTo] fail is exactly one of: the cell is out of
    bounds, it holds a Wall, or it holds a Gate and the player has no key. *)
Lemma canMoveTo_false (p : Player.t) (level : Level.t) (nr nc : Z) :
  Player.canMoveTo p level nr nc = Ok false <->
  Level.inBounds level nr nc = Ok false
  \/ (Level.inBounds level nr nc = Ok true
      /\ (holds level nr nc Level.WALL
          \/ (holds level nr nc Level.GATE /\ Player.keysCollected p = 0))).
Proof.
  destruct (Level.inBounds level nr nc) as [[|]|e] eqn:Hin.
  - destruct (inBounds_tileAt _ _ _ Hin) as [v Hv].
    rewrite (canMoveTo_in_bounds p _ _ _ v Hin Hv). unfold holds. rewrite Hv.
    destruct (strict_eq v Level.WALL) eqn:Ew; simpl.
    + apply strict_eq_true in Ew. subst v. split; [|reflexivity].
      intros _. right. split; [reflexivity|]. left. reflexivity.
    + apply strict_eq_false in Ew.
      destruct (strict_eq v Level.GATE) eqn:Eg; simpl.
      * apply strict_eq_true in Eg. subst v.
        destruct (Z.eqb_spec (Player.keysCollected p) 0) as [Hk|Hk]; simpl.
        -- split; [|reflexivity]. intros _. right. split; [reflexivity|].
           right. split; [reflexivity | exact Hk].
        -- split; [discriminate|].
           intros [H|[_ [H|[_ H]]]]; [discriminate H | discriminate H | contradiction].
      * apply strict_eq_false in Eg. split; [discriminate|].
        intros [H|[_ [H|[H _]]]]; [discriminate H | | ]; congruence.
  - rewrite canMoveTo_out_of_bounds by exact Hin.
    split; [intros _; left; reflexivity | reflexivity].
  - rewrite inBounds_spec in Hin. discriminate.
Qed.

(** C9: for every player in transit and every direction, [tryMove] returns
    true, sets the persisted direction to the new one and leaves the target
    of the move under way, and every other field, unchanged. *)
Theorem tryMove_in_transit (p : Player.t) (level : Level.t) (dr dc : Z) :
  Player.moving p = true ->
  exists p',
    Player.tryMove p level dr dc = Ok (true, p')
    /\ p' = Player.setDir p dr dc
    /\ Player.dirR p' = dr /\ Player.dirC p' = dc
    /\ Player.targetR p' = Player.targetR p
    /\ Player.targetC p' = Player.targetC p
    /\ Player.moving p' = true
    /\ Player.r p' = Player.r p /\ Player.c p' = Player.c p
    /\ Player.px p' = Player.px p /\ Player.py p' = Player.py p
    /\ Player.keysCollected p' = Player.keysCollected p
    /\ Player.arrivedThisFrame p' = Player.arrivedThisFrame p.
Proof.
  intros Hm. exists (Player.setDir p dr dc).
  rewrite (tryMove_moving p level dr dc Hm). simpl. rewrite Hm. repeat split.
Qed.

Lemma tryMove_in_transit_witness :
  exists p',
    Player.tryMove in_flight gate_room (-1) 0 = Ok (true, p')
    /\ p' = Player.setDir in_flight (-1) 0
    /\ Player.dirR p' = -1 /\ Player.dirC p' = 0
    /\ Player.targetR p' = Some 1
    /\ Player.targetC p' = Some 2
    /\ Player.moving p' = true
    /\ Player.r p' = 1 /\ Player.c p' = 1
    /\ Player.px p' = 48%float /\ Player.py p' = 48%float
    /\ Player.keysCollected p' = 1
    /\ Player.arrivedThisFrame p' = false.
Proof.
  apply (tryMove_in_transit in_flight gate_room (-1) 0). reflexivity.
Defined.

(** C10: for every player state, at rest or in transit, and every direction
    (dr, dc), [tryMove] leaves (dr, dc) as the persisted direction whatever
    it answers, a rejection included.  When, after any frames and an
    arrival resolution, the player is at rest, [tryContinue] attempts the
    move in that direction: it tests the neighbour cell in direction
    (dr, dc) and answers what [canMoveTo] answers.  If the neighbour may
    now be entered, the player is in transit ([moving] is true) with that
    neighbour as its target, its cell and direction unchanged, and whenever
    later frames bring it to rest its cell is that neighbour; if not, the
    player is left exactly as it was, at rest. *)
Theorem tryMove_sets_direction (p : Player.t) (level : Level.t) (dr dc : Z) :
  exists b p1,
    Player.tryMove p level dr dc = Ok (b, p1)
    /\ Player.dirR p1 = dr /\ Player.dirC p1 = dc
    /\ forall dts p2 level2 level3 p3,
         Sketch.frames p1 dts = Some p2 ->
         Player.handleArrival p2 level2 = Ok (level3, p3) ->
         Player.moving p3 = false ->
         ~ (dr = 0 /\ dc = 0) ->
         exists (ok : bool) (p4 : Player.t),
           Player.canMoveTo p3 level3 (Player.r p3 + dr) (Player.c p3 + dc) = Ok ok
           /\ Player.tryContinue p3 level3 = Ok (ok, p4)
           /\ p4 = (if ok
                    then Player.startMove p3 (Player.r p3 + dr) (Player.c p3 + dc)
                    else p3)
           /\ Player.dirR p4 = dr /\ Player.dirC p4 = dc
           /\ Player.r p4 = Player.r p3 /\ Player.c p4 = Player.c p3
           /\ Player.moving p4 = ok
           /\ (ok = true ->
               Player.targetR p4 = Some (Player.r p3 + dr)
               /\ Player.targetC p4 = Some (Player.c p3 + dc)
               /\ forall dts' p5,
                    Sketch.frames p4 dts' = Some p5 ->
                    Player.moving p5 = false ->
                    Player.r p5 = Player.r p3 + dr
                    /\ Player.c p5 = Player.c p3 + dc).
Proof.
  assert (Hstep : exists b p1,
            Player.tryMove p level dr dc = Ok (b, p1)
            /\ Player.dirR p1 = dr /\ Player.dirC p1 = dc).
  { destruct (tryMove_cases p level dr dc) as [b [H|[_ H]]];
      eexists _, _; (split; [exact H|]); split; reflexivity. }
  destruct Hstep as (b & p1 & Htry & Hdr & Hdc).
  exists b, p1. split; [exact Htry|]. split; [exact Hdr|]. split; [exact Hdc|].
  intros dts p2 level2 level3 p3 Hframes Harr Hrest Hdir.
  apply frames_keeps in Hframes as (_ & Hdr2 & Hdc2).
  apply handleArrival_player in Harr as (k & Hp3 & _).
  assert (Hdr3 : Player.dirR p3 = dr) by (subst p3; simpl; congruence).
  assert (Hdc3 : Player.dirC p3 = dc) by (subst p3; simpl; congruence).
  destruct (canMoveTo_total p3 level3 (Player.r p3 + dr) (Player.c p3 + dc))
    as [ok Hok].
  assert (Hcont : Player.tryContinue p3 level3
                  = Ok (ok, if ok
                            then Player.startMove p3 (Player.r p3 + dr)
                                   (Player.c p3 + dc)
                            else p3)).
  { rewrite <- Hdr3, <- Hdc3 in Hok |- *.
    apply tryContinue_idle; [exact Hrest | | exact Hok].
    rewrite Hdr3, Hdc3. exact Hdir. }
  exists ok. eexists. split; [exact Hok|]. split; [exact Hcont|].
  split; [reflexivity|].
  destruct ok; simpl.
  - split; [exact Hdr3|]. split; [exact Hdc3|].
    split; [reflexivity|]. split; [reflexivity|]. split; [reflexivity|].
    intros _. split; [reflexivity|]. split; [reflexivity|].
    intros dts' p5 Hframes' Hrest'.
    assert (Hin : in_transit_to (Player.r p3 + dr) (Player.c p3 + dc)
                    (Player.keysCollected p3) dr dc
                    (Player.startMove p3 (Player.r p3 + dr) (Player.c p3 + dc))).
    { unfold in_transit_to. simpl. split; [reflexivity|].
      split; [exact Hdr3|]. split; [exact Hdc3|].
      split; [reflexivity|]. split; [reflexivity|]. discriminate. }
    pose proof (frames_in_transit _ _ _ _ _ dts' _ _ Hin Hframes') as Hin'.
    destruct Hin' as (_ & _ & _ & _ & _ & Hcell). exact (Hcell Hrest').
  - split; [exact Hdr3|]. split; [exact Hdc3|].
    split; [reflexivity|]. split; [reflexivity|]. split; [exact Hrest|].
    discriminate.
Qed.

Lemma tryMove_sets_direction_witness :
  exists pB p1 level3 p3 p4 p5,
    Player.tryMove (Player.setCell (Player.new Sketch.TS) 1 1) corridor 0 1
    = Ok (true, setting_out)
    /\ Sketch.frames setting_out [1000%float] = Some pB
    /\ Player.c pB = 2 /\ Player.arrivedThisFrame pB = true
    /\ Player.tryMove pB corridor 0 1 = Ok (false, p1)
    /\ Player.dirR p1 = 0 /\ Player.dirC p1 = 1
    /\ Sketch.frames p1 [16%float] = Some p1
    /\ Player.handleArrival p1 corridor = Ok (level3, p3)
    /\ Player.keysCollected p3 = 1
    /\ Player.canMoveTo p3 level3 1 3 = Ok true
    /\ Player.tryContinue p3 level3 = Ok (true, p4)
    /\ Player.moving p4 = true
    /\ Player.targetR p4 = Some 1 /\ Player.targetC p4 = Some 3
    /\ Player.r p4 = 1 /\ Player.c p4 = 2
    /\ Sketch.frames p4 [1000%float] = Some p5
    /\ Player.moving p5 = false
    /\ Player.r p5 = 1 /\ Player.c p5 = 3.
Proof.
  eassert (HB : Sketch.frames setting_out [1000%float] = Some _)
    by (vm_compute; reflexivity).
  match type of HB with _ = Some ?pB =>
    destruct (tryMove_sets_direction pB corridor 0 1)
      as (b & p1 & Htry & Hdr & Hdc & Hnext);
    assert (Hconc : Player.tryMove pB corridor 0 1
                    = Ok (false, Player.setDir pB 0 1))
      by (vm_compute; reflexivity);
    rewrite Hconc in Htry; injection Htry as <- <-;
    assert (Hf : Sketch.frames (Player.setDir pB 0 1) [16%float]
                 = Some (Player.setDir pB 0 1))
      by (vm_compute; reflexivity);
    eassert (Harr : Player.handleArrival (Player.setDir pB 0 1) corridor
                    = Ok (_, _))
      by (vm_compute; reflexivity)
  end.
  match type of Harr with _ = Ok (?l3, ?q3) =>
    destruct (Hnext [16%float] _ corridor l3 q3 Hf Harr eq_refl)
      as (ok & p4 & Hcan & Hcont & Hp4 & Hdr4 & Hdc4 & Hr4 & Hc4 & Hmov & Hgo);
      [intros [_ H]; discriminate H|];
    assert (Hopen : Player.canMoveTo q3 l3 1 3 = Ok true)
      by (vm_compute; reflexivity);
    assert (Hok : Ok true = Ok ok) by (rewrite <- Hopen; exact Hcan);
    injection Hok as <-
  end.
  destruct (Hgo eq_refl) as (Htr4 & Htc4 & Hlater).
  simpl in Hp4.
  eassert (H5 : Sketch.frames p4 [1000%float] = Some _)
    by (rewrite Hp4; vm_compute; reflexivity).
  match type of H5 with _ = Some ?q5 =>
    assert (Hrest5 : Player.moving q5 = false) by reflexivity;
    destruct (Hlater [1000%float] q5 H5 Hrest5) as (Hr5 & Hc5)
  end.
  eexists _, _, _, _, p4, _.
  split; [vm_compute; reflexivity|].
  split; [exact HB|]. split; [reflexivity|]. split; [reflexivity|].
  split; [exact Hconc|]. split; [reflexivity|]. split; [reflexivity|].
  split; [exact Hf|]. split; [exact Harr|]. split; [reflexivity|].
  split; [exact Hopen|]. split; [exact Hcont|]. split; [exact Hmov|].
  split; [exact Htr4|]. split; [exact Htc4|].
  split; [exact Hr4|]. split; [exact Hc4|].
  split; [exact H5|]. split; [reflexivity|].
  split; [exact Hr5 | exact Hc5].
Defined.

(** ** The embedding of [update] is total on every state the program reaches *)

(** [moving] is only set together with both target fields. *)
Lemma moving_has_target (p : Player.t) :
  reachable p -> Player.moving p = true ->
  exists tr tc, Player.targetR p = Some tr /\ Player.targetC p = Some tc.
Proof.
  intros Hreach.
  induction Hreach as
    [ tileSize | p r c _ IH | p _ IH | p level _ IH
    | p level dr dc b p' _ IH Hmove | p level b p' _ IH Hcont
    | p dt p' _ IH Hup | p level level' p' _ IH Harr ].
  - discriminate.
  - exact IH.
  - exact IH.
  - unfold Sketch.loadLevel. destruct (Level.start level) as [[r c]|]; discriminate.
  - destruct (tryMove_cases p level dr dc) as [b' [H|[_ H]]];
      rewrite H in Hmove; injection Hmove as _ <-; [exact IH|].
    intros _. simpl. eauto.
  - destruct (tryContinue_cases p level) as [b' [H|H]];
      rewrite H in Hcont; injection Hcont as _ <-; [exact IH|].
    intros _. simpl. eauto.
  - apply update_cases in Hup as [->|[(x & y & ->)|(_ & q & _ & Hfin)]].
    + exact IH.
    + exact IH.
    + apply finishMove_Some in Hfin as (tr & tc & _ & _ & _ & _ & Hm & _).
      rewrite Hm. discriminate.
  - apply handleArrival_player in Harr as (k & -> & _). exact IH.
Qed.

(** So [update] always yields a state there: the case the embedding leaves
    out, committing a [null] target, is never met. *)
Lemma update_total (p : Player.t) (dt : float) :
  reachable p -> exists p', Player.update p dt = Some p'.
Proof.
  intros Hreach. destruct (Player.moving p) eqn:Hm.
  - destruct (moving_has_target p Hreach Hm) as (tr & tc & Htr & Htc).
    rewrite (update_moving p dt Hm). unfold Player.finishMove. simpl.
    rewrite Htr, Htc.
    destruct (Player.dist p =? 0)%float; [eauto|].
    destruct (Player.dist p <=? Player.step p dt)%float; eauto.
  - rewrite (update_idle p dt Hm). eauto.
Qed.

(** ** The frame step *)

Lemma setPixel_same (p : Player.t) :
  Player.setPixel p (Player.px p) (Player.py p) = p.
Proof. destruct p; reflexivity. Qed.

(** On a moving player [update] is [Motion.advance] over binary64, followed
    by [finishMove] when the move is over. *)
Lemma update_advance (p : Player.t) (dt : float) :
  Player.moving p = true ->
  Player.update p dt
  = match Motion.advance Motion.binary64 (Player.px p) (Player.py p)
            (Player.targetPx p) (Player.targetPy p) (Player.step p dt) with
    | Motion.Stop x y => Player.finishMove (Player.setPixel p x y)
    | Motion.Move x y => Some (Player.setPixel p x y)
    end.
Proof.
  intros Hm. rewrite (update_moving p dt Hm).
  unfold Motion.advance, Motion.distance. simpl.
  fold (Player.dx p) (Player.dy p). fold (Player.dist p).
  destruct (Player.dist p =? 0)%float.
  - rewrite setPixel_same. reflexivity.
  - destruct (Player.dist p <=? Player.step p dt)%float; reflexivity.
Qed.

(** When the move is over, the position is the target centre, or the
    computed distance was 0 and the position is the one it had. *)
Lemma advance_stop {N : Type} (A : Motion.arith N) (x y tx ty s x' y' : N) :
  Motion.advance A x y tx ty s = Motion.Stop x' y' ->
  (x' = tx /\ y' = ty)
  \/ (Motion.eqb A (Motion.distance A x y tx ty) (Motion.zero A) = true
      /\ x' = x /\ y' = y).
Proof.
  unfold Motion.advance.
  destruct (Motion.eqb A _ _).
  - intros H. injection H as <- <-. right. repeat split.
  - destruct (Motion.leb A _ _); [|discriminate].
    intros H. injection H as <- <-. left. split; reflexivity.
Qed.






(** On the positions of [setting_out] and a step of 13 pixels the two number
    systems agree: one more step, to (61,48). *)
Lemma advance_sample :
  (Motion.advance Motion.binary64 48 48 80 48 13 = Motion.Move 61 48)%float
  /\ (Motion.advance Motion.exact 48 48 80 48 13 = Motion.Move 61 48)%R.
Proof.
  split; [vm_compute; reflexivity|].
  unfold Motion.advance, Motion.distance. simpl.
  assert (Hd : R_sqrt.sqrt ((80 - 48) * (80 - 48) + (48 - 48) * (48 - 48)) = 32%R).
  { replace ((80 - 48) * (80 - 48) + (48 - 48) * (48 - 48))%R with (32 * 32)%R
      by ring.
    apply sqrt_square. lra. }
  rewrite Hd.
  destruct (Req_dec_T 32 0) as [H|_]; [lra|].
  destruct (Rle_dec 32 13) as [H|_]; [lra|].
  f_equal; field.
Qed.







(** * Further properties of the code *)

(** ** Copies of rows *)

Lemma get_slice (a : Array.t) (i : Z) :
  Array.get (Array.slice a) i
  = if decide (0 <= i < Z.of_nat (Array.length a)) then Array.get a i else None.
Proof.
  unfold Array.get, Array.slice. simpl.
  destruct (Array.elems a !! i) as [v|] eqn:E.
  - destruct (decide (0 <= i < Z.of_nat (Array.length a))) as [Hi|Hi].
    + apply map_lookup_filter_Some. split; [exact E | exact Hi].
    + apply map_lookup_filter_None. right. intros v' Hv'. simpl. exact Hi.
  - rewrite (proj2 (map_lookup_filter_None _ _ _)) by (left; exact E).
    destruct (decide (0 <= i < Z.of_nat (Array.length a))); reflexivity.
Qed.

Lemma array_eq (a b : Array.t) :
  Array.length a = Array.length b ->
  (forall i, Array.get a i = Array.get b i) -> a = b.
Proof.
  destruct a as [ea la], b as [eb lb]. unfold Array.get. simpl.
  intros -> Hget. f_equal. apply map_eq. exact Hget.
Qed.

(** A plain array is equal to its copy. *)
Lemma slice_dense (a : Array.t) :
  Array.dense a = true -> Array.slice a = a.
Proof.
  intros Hd. apply array_eq; [reflexivity|]. intros i. rewrite get_slice.
  destruct (decide (0 <= i < Z.of_nat (Array.length a))) as [Hi|Hi];
    [reflexivity|].
  destruct (Array.get a i) as [v|] eqn:E; [|reflexivity].
  exfalso. apply Hi. apply (dense_get a i Hd). rewrite E. eauto.
Qed.

(** ** Writes inside the grid keep its shape *)

Lemma setTile_shape (level level' : Level.t) (r0 c0 v : Z) :
  Level.inBounds level r0 c0 = Ok true ->
  Level.setTile level r0 c0 v = Ok level' ->
  Level.rows level' = Level.rows level
  /\ width (Level.grid level') = width (Level.grid level)
  /\ Level.start level' = Level.start level
  /\ Level.ts level' = Level.ts level.
Proof.
  intros Hin Hset. apply inBounds_true in Hin as [Hr Hc].
  unfold Level.setTile in Hset.
  destruct (row_at (Level.grid level) r0) as [row|] eqn:Hrow; [|discriminate].
  injection Hset as <-. unfold Level.rows. simpl.
  rewrite length_insert. split; [reflexivity|]. split; [|split; reflexivity].
  apply row_at_Some in Hrow as [_ Hlk].
  destruct (Level.grid level) as [|row0 rest]; [reflexivity|].
  destruct (Z.to_nat r0) as [|n] eqn:En; simpl; [|reflexivity].
  simpl in Hlk. injection Hlk as ->. simpl in Hc.
  destruct (Z.leb_spec 0 c0); lia.
Qed.

Lemma setTile_inBounds (level level' : Level.t) (r0 c0 v r c : Z) :
  Level.inBounds level r0 c0 = Ok true ->
  Level.setTile level r0 c0 v = Ok level' ->
  Level.inBounds level' r c = Level.inBounds level r c.
Proof.
  intros Hin Hset.
  destruct (setTile_shape _ _ _ _ _ Hin Hset) as (Hrows & Hwidth & _).
  rewrite !inBounds_spec, Hrows, Hwidth. reflexivity.
Qed.

(** ** More on entering a cell *)

Lemma canMoveTo_enterable (p : Player.t) (level : Level.t) (nr nc : Z) :
  Player.canMoveTo p level nr nc = Ok true -> enterable level nr nc = true.
Proof.
  intros Hcan. unfold enterable.
  destruct (Level.inBounds level nr nc) as [[|]|e] eqn:Hin.
  - destruct (inBounds_tileAt _ _ _ Hin) as [v Hv]. rewrite Hv.
    rewrite (canMoveTo_in_bounds p _ _ _ v Hin Hv) in Hcan.
    injection Hcan as Hcan. apply andb_true_iff in Hcan as [Hw _]. exact Hw.
  - rewrite canMoveTo_out_of_bounds in Hcan by exact Hin. discriminate.
  - rewrite inBounds_spec in Hin. discriminate.
Qed.

Lemma tryMove_step (p p' : Player.t) (level : Level.t) (dr dc : Z) (b : bool) :
  Player.tryMove p level dr dc = Ok (b, p') ->
  (b = Player.moving p /\ p' = Player.setDir p dr dc)
  \/ (b = true /\ Player.moving p = false
      /\ Player.canMoveTo p level (Player.r p + dr) (Player.c p + dc) = Ok true
      /\ p' = Player.startMove (Player.setDir p dr dc)
                (Player.r p + dr) (Player.c p + dc)).
Proof.
  destruct (Player.moving p) eqn:Hm.
  - rewrite (tryMove_moving p level dr dc Hm). intros H. injection H as <- <-.
    left. split; reflexivity.
  - destruct (canMoveTo_total p level (Player.r p + dr) (Player.c p + dc))
      as [ok Hok].
    rewrite (tryMove_idle p level dr dc ok Hm Hok). intros H.
    injection H as <- <-. destruct ok.
    + right. repeat split. exact Hok.
    + left. split; reflexivity.
Qed.

Lemma tryContinue_step (p p' : Player.t) (level : Level.t) (b : bool) :
  Player.tryContinue p level = Ok (b, p') ->
  (b = Player.moving p /\ p' = p)
  \/ (b = true /\ Player.moving p = false
      /\ ~ (Player.dirR p = 0 /\ Player.dirC p = 0)
      /\ Player.canMoveTo p level (Player.r p + Player.dirR p)
           (Player.c p + Player.dirC p) = Ok true
      /\ p' = Player.startMove p (Player.r p + Player.dirR p)
                (Player.c p + Player.dirC p)).
Proof.
  destruct (Player.moving p) eqn:Hm.
  - unfold Player.tryContinue. rewrite Hm. intros H. injection H as <- <-.
    left. split; reflexivity.
  - destruct (decide (Player.dirR p = 0 /\ Player.dirC p = 0)) as [[Hr Hc]|Hdir].
    + unfold Player.tryContinue. rewrite Hm, Hr, Hc. simpl.
      intros H. injection H as <- <-. left. split; reflexivity.
    + destruct (canMoveTo_total p level (Player.r p + Player.dirR p)
                  (Player.c p + Player.dirC p)) as [ok Hok].
      rewrite (tryContinue_idle p level ok Hm Hdir Hok). intros H.
      injection H as <- <-. destruct ok.
      * right. repeat split; assumption.
      * left. split; reflexivity.
Qed.

(** ** What an arrival does to the grid *)

(** [handleArrival] reads the player's cell and rewrites no other: a Key or
    a Gate there becomes Floor, any other cell content stays. *)
Lemma handleArrival_tiles (p p' : Player.t) (level level' : Level.t) :
  Player.handleArrival p level = Ok (level', p') ->
  exists v,
    Level.tileAt level (Player.r p) (Player.c p) = Ok v
    /\ (level' = level
        \/ Level.setTile level (Player.r p) (Player.c p) Level.FLOOR = Ok level')
    /\ forall r c,
         Level.tileAt level' r c
         = if decide (r = Player.r p /\ c = Player.c p)
           then Ok (if strict_eq v Level.KEY || strict_eq v Level.GATE
                    then Some Level.FLOOR else v)
           else Level.tileAt level r c.
Proof.
  intros Harr. pose proof (handleArrival_spec p level) as Hspec.
  destruct (Level.tileAt level (Player.r p) (Player.c p)) as [v|e] eqn:Htile.
  2:{ rewrite Hspec in Harr. discriminate. }
  exists v. split; [reflexivity|].
  assert (Hwritten : forall l1,
    Level.setTile level (Player.r p) (Player.c p) Level.FLOOR = Ok l1 ->
    strict_eq v Level.KEY || strict_eq v Level.GATE = true ->
    forall r c,
      Level.tileAt l1 r c
      = if decide (r = Player.r p /\ c = Player.c p)
        then Ok (if strict_eq v Level.KEY || strict_eq v Level.GATE
                 then Some Level.FLOOR else v)
        else Level.tileAt level r c).
  { intros l1 Hset Hkg r c. rewrite (tileAt_setTile _ _ _ _ _ r c Hset), Hkg.
    reflexivity. }
  destruct (strict_eq v Level.KEY) eqn:Ekey.
  - destruct Hspec as (l1 & Hset & Heq). rewrite Heq in Harr.
    injection Harr as <- <-. split; [right; exact Hset|].
    apply Hwritten; [exact Hset | reflexivity].
  - destruct (strict_eq v Level.GATE) eqn:Egate.
    + destruct Hspec as (l1 & Hset & Heq). rewrite Heq in Harr.
      injection Harr as <- <-. split; [right; exact Hset|].
      apply Hwritten; [exact Hset | reflexivity].
    + rewrite Hspec in Harr. injection Harr as <- <-.
      split; [left; reflexivity|]. intros r c. simpl.
      destruct (decide (r = Player.r p /\ c = Player.c p)) as [[-> ->]|Hne];
        [exact Htile | reflexivity].
Qed.

Lemma handleArrival_inBounds (p p' : Player.t) (level level' : Level.t) (r c : Z) :
  Player.handleArrival p level = Ok (level', p') ->
  Level.inBounds level (Player.r p) (Player.c p) = Ok true ->
  Level.inBounds level' r c = Level.inBounds level r c
  /\ Level.start level' = Level.start level.
Proof.
  intros Harr Hin.
  apply handleArrival_tiles in Harr as (v & _ & [->|Hset] & _).
  - split; reflexivity.
  - split; [exact (setTile_inBounds _ _ _ _ _ r c Hin Hset)|].
    apply (setTile_shape _ _ _ _ _ Hin Hset).
Qed.

Lemma enterable_inv (level : Level.t) (r c : Z) :
  enterable level r c = true ->
  Level.inBounds level r c = Ok true
  /\ exists v, Level.tileAt level r c = Ok v /\ strict_eq v Level.WALL = false.
Proof.
  unfold enterable.
  destruct (Level.inBounds level r c) as [[|]|e]; try discriminate.
  destruct (Level.tileAt level r c) as [v|e]; [|discriminate].
  intros H. apply negb_true_iff in H. eauto.
Qed.

Lemma settled_inv (level : Level.t) (r c : Z) :
  settled level r c = true ->
  Level.inBounds level r c = Ok true
  /\ exists v, Level.tileAt level r c = Ok v
               /\ strict_eq v Level.WALL = false
               /\ strict_eq v Level.KEY = false
               /\ strict_eq v Level.GATE = false.
Proof.
  unfold settled.
  destruct (Level.inBounds level r c) as [[|]|e]; try discriminate.
  destruct (Level.tileAt level r c) as [v|e]; [|discriminate].
  intros H. apply andb_true_iff in H as [H Hg].
  apply andb_true_iff in H as [Hw Hk].
  apply negb_true_iff in Hw, Hk, Hg. eauto 10.
Qed.

Lemma settled_enterable (level : Level.t) (r c : Z) :
  settled level r c = true -> enterable level r c = true.
Proof.
  intros H. apply settled_inv in H as (Hin & v & Hv & Hw & _).
  unfold enterable. rewrite Hin, Hv, Hw. reflexivity.
Qed.

(** An arrival on an enterable cell keeps every enterable cell enterable
    and every settled cell settled, and settles the cell arrived on. *)
Lemma handleArrival_cells (p p' : Player.t) (level level' : Level.t) :
  Player.handleArrival p level = Ok (level', p') ->
  enterable level (Player.r p) (Player.c p) = true ->
  settled level' (Player.r p) (Player.c p) = true
  /\ (forall r c, enterable level r c = true -> enterable level' r c = true)
  /\ (forall r c, settled level r c = true -> settled level' r c = true).
Proof.
  intros Harr Hent.
  apply enterable_inv in Hent as (Hin & v & Hv & Hwall).
  assert (Hbounds : forall r c,
            Level.inBounds level' r c = Level.inBounds level r c).
  { intros r c. apply (handleArrival_inBounds _ _ _ _ r c Harr Hin). }
  apply handleArrival_tiles in Harr as (v0 & Hv0 & _ & Htiles).
  rewrite Hv in Hv0. injection Hv0 as <-.
  assert (Hnew : exists v',
            Level.tileAt level' (Player.r p) (Player.c p) = Ok v'
            /\ strict_eq v' Level.WALL = false
            /\ strict_eq v' Level.KEY = false
            /\ strict_eq v' Level.GATE = false).
  { rewrite Htiles, decide_True by (split; reflexivity).
    eexists. split; [reflexivity|].
    destruct (strict_eq v Level.KEY) eqn:Ek; simpl; [repeat split|].
    destruct (strict_eq v Level.GATE) eqn:Eg; simpl; [repeat split|].
    repeat split; assumption. }
  destruct Hnew as (v' & Hv' & Hw' & Hk' & Hg').
  split; [|split].
  - unfold settled. rewrite Hbounds, Hin, Hv', Hw', Hk', Hg'. reflexivity.
  - intros r c Hrc. unfold enterable. rewrite Hbounds.
    destruct (decide (r = Player.r p /\ c = Player.c p)) as [[-> ->]|Hne].
    + rewrite Hin, Hv', Hw'. reflexivity.
    + rewrite Htiles, decide_False by exact Hne. exact Hrc.
  - intros r c Hrc. unfold settled. rewrite Hbounds.
    destruct (decide (r = Player.r p /\ c = Player.c p)) as [[-> ->]|Hne].
    + rewrite Hin, Hv', Hw', Hk', Hg'. reflexivity.
    + rewrite Htiles, decide_False by exact Hne. exact Hrc.
Qed.

Lemma handleArrival_enterable_total (p : Player.t) (level : Level.t) :
  enterable level (Player.r p) (Player.c p) = true ->
  exists level' p', Player.handleArrival p level = Ok (level', p').
Proof.
  intros Hent. apply enterable_inv in Hent as (_ & v & Hv & _).
  pose proof (handleArrival_spec p level) as Hspec. rewrite Hv in Hspec.
  destruct (strict_eq v Level.KEY).
  - destruct Hspec as (l1 & _ & ->). eauto.
  - destruct (strict_eq v Level.GATE).
    + destruct Hspec as (l1 & _ & ->). eauto.
    + rewrite Hspec. eauto.
Qed.

(** ** The game between callbacks *)

Lemma axis_step_abs (dr dc : Z) :
  axis_step_or_none dr dc = true -> ~ (dr = 0 /\ dc = 0) ->
  Z.abs dr + Z.abs dc = 1.
Proof. unfold axis_step_or_none. intros H Hnz. apply Z.leb_le in H. lia. Qed.

Lemma direction_axis (k : Game.p5) (key : string) (keyCode dr dc : Z) :
  Game.direction k key keyCode = Some (dr, dc) -> Z.abs dr + Z.abs dc = 1.
Proof.
  unfold Game.direction. intros H.
  repeat match type of H with
         | (if ?b then _ else _) = _ => destruct b
         end;
    try discriminate H; injection H as <- <-; reflexivity.
Qed.

Lemma level_at_insert (levels : list Level.t) (level level' : Level.t) :
  Game.level_at levels 0 = Some level ->
  Game.level_at (<[Z.to_nat 0 := level']> levels) 0 = Some level'.
Proof.
  unfold Game.level_at. simpl. destruct levels as [|l0 rest]; [discriminate|].
  reflexivity.
Qed.

(** The arrival block of [draw] on a player that has just come to rest on
    an enterable cell. *)
Lemma onArrival_between_callbacks (g : Game.t) (level : Level.t) (p : Player.t)
      (sr sc : Z) :
  Game.li g = 0 ->
  Game.level_at (Game.levels g) 0 = Some level ->
  Level.start level = Some (sr, sc) ->
  settled level sr sc = true ->
  Player.moving p = false ->
  enterable level (Player.r p) (Player.c p) = true ->
  axis_step_or_none (Player.dirR p) (Player.dirC p) = true ->
  exists g', Game.onArrival g level p = Game.Done g' /\ between_callbacks g'.
Proof.
  intros Hli Hlev Hstart Hss Hrest Hent Hdir.
  destruct (handleArrival_enterable_total p level Hent) as (level' & p' & Harr).
  destruct (handleArrival_cells _ _ _ _ Harr Hent) as (Hsettled & Hkeep_e & Hkeep_s).
  pose proof (proj1 (enterable_inv _ _ _ Hent)) as Hin.
  destruct (handleArrival_inBounds _ _ _ _ 0 0 Harr Hin) as [_ Hstart'].
  destruct (handleArrival_player _ _ _ _ Harr) as (keys & Hp' & _).
  unfold Game.onArrival. rewrite Harr, Hli.
  assert (Hlev' : Game.level_at (<[Z.to_nat 0 := level']> (Game.levels g)) 0
                  = Some level') by exact (level_at_insert _ _ _ Hlev).
  assert (Hr' : Player.r p' = Player.r p) by (subst p'; reflexivity).
  assert (Hc' : Player.c p' = Player.c p) by (subst p'; reflexivity).
  assert (Hm' : Player.moving p' = false) by (subst p'; exact Hrest).
  assert (Hd' : axis_step_or_none (Player.dirR p') (Player.dirC p') = true)
    by (subst p'; exact Hdir).
  assert (Ha' : Player.arrivedThisFrame p' = false) by (subst p'; reflexivity).
  rewrite Hr', Hc'.
  destruct (settled_inv _ _ _ Hsettled) as (_ & v' & Hv' & _).
  unfold Level.isGoal. rewrite Hv'. simpl.
  destruct (strict_eq v' Level.GOAL) eqn:Egoal.
  - eexists. split; [reflexivity|]. split; [reflexivity|].
    exists level', sr, sc. simpl.
    split; [exact Hlev'|]. split; [congruence|].
    split; [apply Hkeep_s; exact Hss|].
    split; [rewrite Hr', Hc'; exact Hsettled|].
    split; [rewrite Hm'; discriminate|].
    split; [exact Ha'|].
    split; [|exact Hd'].
    intros _. split; [exact Hm'|].
    rewrite Hr', Hc'. unfold Level.isGoal. rewrite Hv'. simpl.
    rewrite Egoal. reflexivity.
  - destruct (tryContinue_cases p' level') as [b Hcont].
    assert (Hcont' : exists p'', Player.tryContinue p' level' = Ok (b, p''))
      by (destruct Hcont as [H|H]; eauto).
    destruct Hcont' as (p'' & Hcont'). rewrite Hcont'.
    eexists. split; [reflexivity|]. split; [reflexivity|].
    exists level', sr, sc. simpl.
    split; [exact Hlev'|]. split; [congruence|].
    split; [apply Hkeep_s; exact Hss|].
    apply tryContinue_step in Hcont'
      as [[_ ->]|(_ & _ & Hnz & Hcan & ->)]; simpl.
    + split; [rewrite Hr', Hc'; exact Hsettled|].
      split; [rewrite Hm'; discriminate|].
      split; [exact Ha'|]. split; [discriminate | exact Hd'].
    + split; [rewrite Hr', Hc'; exact Hsettled|].
      split.
      { intros _. eexists _, _. split; [reflexivity|]. split; [reflexivity|].
        split; [exact (canMoveTo_enterable _ _ _ _ Hcan)|].
        pose proof (axis_step_abs _ _ Hd' Hnz) as Habs.
        replace (Player.r p' + Player.dirR p' - Player.r p')
          with (Player.dirR p') by lia.
        replace (Player.c p' + Player.dirC p' - Player.c p')
          with (Player.dirC p') by lia.
        exact Habs. }
      split; [exact Ha'|]. split; [discriminate | exact Hd'].
Qed.

Lemma update_with_target (p : Player.t) (dt : float) (tr tc : Z) :
  Player.targetR p = Some tr -> Player.targetC p = Some tc ->
  exists p1, Player.update p dt = Some p1.
Proof.
  intros Htr Htc. unfold Player.update, Player.finishMove. simpl.
  rewrite Htr, Htc.
  destruct (negb (Player.moving p)); [eauto|].
  destruct (Player.dist p =? 0)%float; [eauto|].
  destruct (Player.dist p <=? Player.step p dt)%float; eauto.
Qed.

Lemma draw_between_callbacks (g : Game.t) (dt : float) :
  between_callbacks g ->
  exists g', Game.draw g dt = Game.Done g' /\ between_callbacks g'.
Proof.
  intros Hinv. pose proof Hinv as Hinv0.
  destruct Hinv as (Hli & level & sr & sc & Hlev & Hstart & Hss & Hcell
                    & Hmov & Hflag & Hwon & Hdir).
  unfold Game.draw.
  destruct (Game.showStart g); [eauto|].
  destruct (Game.hasWon g) eqn:Hw; [eauto|].
  rewrite Hli, Hlev.
  assert (Hsame : forall p1,
    Player.r p1 = Player.r (Game.player g) ->
    Player.c p1 = Player.c (Game.player g) ->
    Player.moving p1 = Player.moving (Game.player g) ->
    Player.targetR p1 = Player.targetR (Game.player g) ->
    Player.targetC p1 = Player.targetC (Game.player g) ->
    Player.arrivedThisFrame p1 = false ->
    Player.dirR p1 = Player.dirR (Game.player g) ->
    Player.dirC p1 = Player.dirC (Game.player g) ->
    between_callbacks
      {| Game.levels := Game.levels g; Game.li := 0; Game.player := p1;
         Game.hasWon := false; Game.showStart := false |}).
  { intros p1 E1 E2 E3 E4 E5 E6 E7 E8. split; [reflexivity|].
    exists level, sr, sc. simpl. rewrite E1, E2, E3, E4, E5, E7, E8.
    repeat (split; [assumption|]). assumption. }
  destruct (Player.moving (Game.player g)) eqn:Hm.
  - destruct (Hmov eq_refl) as (tr & tc & Htr & Htc & Hent & Hadj).
    destruct (update_with_target (Game.player g) dt tr tc Htr Htc) as [p1 Hup].
    rewrite Hup.
    apply update_cases in Hup as [->|[(x & y & ->)|(_ & q & Hq & Hfin)]].
    + rewrite Hflag. eexists. split; [reflexivity|].
      apply Hsame; try reflexivity; assumption.
    + simpl. rewrite Hflag. eexists. split; [reflexivity|].
      apply Hsame; try reflexivity; assumption.
    + apply finishMove_Some in Hfin
        as (tr' & tc' & Hqr & Hqc & Hr1 & Hc1 & Hm1 & Ha1 & _ & _ & _ & Hd1 & Hd2).
      assert (Hq' : Player.targetR q = Some tr /\ Player.targetC q = Some tc
                    /\ Player.dirR q = Player.dirR (Game.player g)
                    /\ Player.dirC q = Player.dirC (Game.player g)).
      { destruct Hq as [->|(x & y & ->)]; repeat split; assumption. }
      destruct Hq' as (Hqr' & Hqc' & Hqd1 & Hqd2).
      assert (Etr : tr' = tr) by congruence.
      assert (Etc : tc' = tc) by congruence.
      rewrite Etr in Hr1. rewrite Etc in Hc1. rewrite Ha1.
      replace g with {| Game.levels := Game.levels g; Game.li := Game.li g;
                        Game.player := Game.player g;
                        Game.hasWon := Game.hasWon g;
                        Game.showStart := Game.showStart g |}
        by (destruct g; reflexivity).
      apply (onArrival_between_callbacks _ level p1 sr sc);
        simpl; try assumption.
      * rewrite Hr1, Hc1. exact Hent.
      * rewrite Hd1, Hd2, Hqd1, Hqd2. exact Hdir.
  - rewrite (update_idle _ dt Hm), Hflag. eexists. split; [reflexivity|].
    apply Hsame; try reflexivity; assumption.
Qed.

Lemma settled_has_row (level : Level.t) (r c : Z) :
  settled level r c = true ->
  exists w, Level.pixelWidth level = Ok w.
Proof.
  intros H. apply settled_inv in H as (Hin & _).
  apply inBounds_true in Hin as [Hr _].
  unfold Level.pixelWidth. rewrite cols_width by lia. simpl. eauto.
Qed.

Lemma restartGame_between_callbacks (g : Game.t) :
  between_callbacks g ->
  exists g', Game.restartGame g = Ok g' /\ between_callbacks g'.
Proof.
  intros (Hli & level & sr & sc & Hlev & Hstart & Hss & _).
  unfold Game.restartGame, Game.loadLevel. simpl. rewrite Hlev.
  destruct (settled_has_row _ _ _ Hss) as [w ->]. simpl.
  eexists. split; [reflexivity|]. split; [reflexivity|].
  exists level, sr, sc. unfold Sketch.loadLevel. rewrite Hstart. simpl.
  split; [exact Hlev|]. split; [reflexivity|]. split; [exact Hss|].
  split; [exact Hss|]. split; [discriminate|]. split; [reflexivity|].
  split; [discriminate | reflexivity].
Qed.

Lemma keyPressed_between_callbacks (k : Game.p5) (g : Game.t)
      (key : string) (keyCode : Z) :
  between_callbacks g ->
  exists g', Game.keyPressed k g key keyCode = Ok g' /\ between_callbacks g'.
Proof.
  intros Hinv. pose proof Hinv as Hinv0.
  destruct Hinv as (Hli & level & sr & sc & Hlev & Hstart & Hss & Hcell
                    & Hmov & Hflag & Hwon & Hdir).
  unfold Game.keyPressed.
  destruct (Game.showStart g) eqn:Hs.
  { eexists. split; [reflexivity|]. split; [exact Hli|].
    exists level, sr, sc. simpl. repeat (split; [assumption|]). assumption. }
  destruct (Game.hasWon g) eqn:Hw.
  { destruct (String.eqb key " ").
    - apply restartGame_between_callbacks. exact Hinv0.
    - eauto. }
  destruct (Game.direction k key keyCode) as [[dr dc]|] eqn:Hkey; [|eauto].
  apply direction_axis in Hkey.
  assert (Haxis : axis_step_or_none dr dc = true).
  { unfold axis_step_or_none. apply Z.leb_le. lia. }
  unfold Game.tryMove_current. rewrite Hli, Hlev.
  destruct (tryMove_cases (Game.player g) level dr dc) as [b Hmove].
  assert (Hmove' : exists p', Player.tryMove (Game.player g) level dr dc = Ok (b, p'))
    by (destruct Hmove as [H|[_ H]]; eauto).
  destruct Hmove' as (p' & Hmove'). rewrite Hmove'. simpl.
  eexists. split; [reflexivity|]. split; [reflexivity|].
  exists level, sr, sc. simpl.
  apply tryMove_step in Hmove' as [[_ ->]|(_ & Hm & Hcan & ->)]; simpl.
  - repeat (split; [assumption|]). exact Haxis.
  - split; [assumption|]. split; [assumption|]. split; [assumption|].
    split; [assumption|]. split.
    { intros _. eexists _, _. split; [reflexivity|]. split; [reflexivity|].
      split; [exact (canMoveTo_enterable _ _ _ _ Hcan)|]. lia. }
    split; [assumption|]. split; [discriminate | exact Haxis].
Qed.

Lemma handle_between_callbacks (k : Game.p5) (g : Game.t) (e : Game.event) :
  between_callbacks g ->
  exists g', Game.handle k g e = Game.Done g' /\ between_callbacks g'.
Proof.
  intros Hinv. destruct e as [dt|key keyCode]; simpl.
  - apply draw_between_callbacks. exact Hinv.
  - destruct (keyPressed_between_callbacks k g key keyCode Hinv) as (g' & -> & Hinv').
    eauto.
Qed.

(** Every sequence of callbacks runs to its end, and what holds between
    callbacks holds after it. *)
Lemma run_between_callbacks (k : Game.p5) (events : list Game.event) :
  forall g : Game.t,
  between_callbacks g ->
  exists g', Game.run k g events = Game.Done g' /\ between_callbacks g'.
Proof.
  induction events as [|e rest IH]; intros g Hinv; simpl.
  - eauto.
  - destruct (handle_between_callbacks k g e Hinv) as (g1 & -> & Hinv1).
    apply IH. exact Hinv1.
Qed.

(** *** What [setup] leaves *)

Lemma buildLevels_lookup (levelsData : list (list Array.t)) :
  forall (levels : list Level.t) (i : nat) (level : Level.t),
  Game.buildLevels levelsData = Ok levels -> levels !! i = Some level ->
  exists grid, levelsData !! i = Some grid
               /\ Level.new (Game.copyGrid grid) Sketch.TS = Ok level.
Proof.
  induction levelsData as [|grid rest IH]; intros levels i level; simpl.
  - intros H. injection H as <-. intros H. discriminate H.
  - intros Hbuild. apply bind_Ok in Hbuild as (l0 & Hnew & Hbuild).
    apply bind_Ok in Hbuild as (ls & Hrest & Hbuild). injection Hbuild as <-.
    destruct i as [|i]; simpl.
    + intros H. injection H as <-. eauto.
    + intros H. apply (IH ls i level Hrest H).
Qed.

Lemma buildLevels_total (levelsData : list (list Array.t)) :
  exists levels, Game.buildLevels levelsData = Ok levels
                 /\ List.length levels = List.length levelsData.
Proof.
  induction levelsData as [|grid rest IH]; simpl; [eauto|].
  destruct (findStart_total (raw (Game.copyGrid grid) Sketch.TS))
    as (s & Hfind & Hs).
  destruct (new_after_findStart _ _ s Hfind Hs) as (level & -> & _).
  destruct IH as (levels & -> & Hlen). simpl.
  eexists. split; [reflexivity|]. simpl. congruence.
Qed.

(** The start a constructed level records is a settled cell of it. *)
Lemma new_start_settled (grid : list Array.t) (tileSize : float)
      (level : Level.t) (sr sc : Z) :
  Level.new grid tileSize = Ok level ->
  Level.start level = Some (sr, sc) ->
  settled level sr sc = true.
Proof.
  intros Hnew Hstart.
  pose proof (findStart_window (raw grid tileSize)) as Hwin.
  unfold Level.new in Hnew. fold (raw grid tileSize) in Hnew.
  destruct (Level.findStart (raw grid tileSize)) as [[[r0 c0]|]|e];
    simpl in Hnew; [| |discriminate].
  - destruct Hwin as (Hr0 & Hc0 & _).
    assert (Hin : Level.inBounds
                    {| Level.grid := grid; Level.ts := tileSize;
                       Level.start := Some (r0, c0) |} r0 c0 = Ok true).
    { rewrite inBounds_spec. simpl. f_equal. apply bool_decide_eq_true_2.
      split; assumption. }
    destruct (setTile_shape _ _ _ _ _ Hin Hnew) as (_ & _ & Hst & _).
    simpl in Hst. rewrite Hstart in Hst. injection Hst as -> ->.
    unfold settled.
    rewrite (setTile_inBounds _ _ _ _ _ r0 c0 Hin Hnew), Hin.
    rewrite (tileAt_setTile _ _ _ _ _ r0 c0 Hnew).
    rewrite decide_True by (split; reflexivity). reflexivity.
  - injection Hnew as <-. discriminate Hstart.
Qed.

Lemma setup_between_callbacks (levelsData : list (list Array.t)) (g0 : Game.t)
      (level : Level.t) (s : Z * Z) :
  Game.setup levelsData = Ok g0 ->
  Game.level_at (Game.levels g0) 0 = Some level ->
  Level.start level = Some s ->
  between_callbacks g0.
Proof.
  intros Hsetup Hlev Hstart. destruct s as [sr sc].
  unfold Game.setup in Hsetup.
  apply bind_Ok in Hsetup as (levels & Hbuild & Hload).
  unfold Game.loadLevel in Hload. simpl in Hload.
  destruct (Game.level_at levels 0) as [level0|] eqn:Hlev0; [|discriminate].
  apply bind_Ok in Hload as (w & _ & Hload). injection Hload as <-.
  simpl in Hlev. rewrite Hlev0 in Hlev. injection Hlev as ->.
  destruct (buildLevels_lookup _ _ 0%nat level Hbuild Hlev0) as (grid & _ & Hnew).
  pose proof (new_start_settled _ _ _ _ _ Hnew Hstart) as Hss.
  split; [reflexivity|]. exists level, sr, sc. simpl.
  unfold Sketch.loadLevel. rewrite Hstart. simpl.
  split; [exact Hlev0|]. split; [reflexivity|]. split; [exact Hss|].
  split; [exact Hss|]. split; [discriminate|]. split; [reflexivity|].
  split; [discriminate | reflexivity].
Qed.

(** The demo game: [setup] on [demo_data], its level 0 and that level's
    start, then a run of events from there. *)
Ltac demo_setup Hs Hl Hst :=
  eassert (Hs : Game.setup demo_data = Ok _) by (vm_compute; reflexivity);
  match type of Hs with
  | _ = Ok ?g0 =>
      eassert (Hl : Game.level_at (Game.levels g0) 0 = Some _)
        by (vm_compute; reflexivity)
  end;
  match type of Hl with
  | _ = Some ?level0 =>
      eassert (Hst : Level.start level0 = Some _) by (vm_compute; reflexivity)
  end.

Ltac demo_run events Hs Hrun :=
  match type of Hs with
  | _ = Ok ?g0 =>
      eassert (Hrun : Game.run p5_keys g0 events = Game.Done _)
        by (vm_compute; reflexivity)
  end.

(** From [setup] on: if [setup] succeeds and level 0 has a start, what
    holds between callbacks holds after every sequence of them. *)
Lemma game_between_callbacks (k : Game.p5) (levelsData : list (list Array.t))
      (g0 : Game.t) (level0 : Level.t) (s : Z * Z) (events : list Game.event) :
  Game.setup levelsData = Ok g0 ->
  Game.level_at (Game.levels g0) 0 = Some level0 ->
  Level.start level0 = Some s ->
  exists g, Game.run k g0 events = Game.Done g /\ between_callbacks g.
Proof.
  intros Hsetup Hlev Hstart. apply run_between_callbacks.
  exact (setup_between_callbacks _ _ _ _ Hsetup Hlev Hstart).
Qed.

(** X1: once [setup] has succeeded on level data whose level 0 has a start,
    no sequence of frames and key presses ever raises, and after it the
    player's cell is a cell of the current level that is in bounds and
    holds neither a Wall nor an unresolved Key or Gate. *)
Theorem game_player_stays_in_grid (k : Game.p5) (levelsData : list (list Array.t))
      (g0 : Game.t) (level0 : Level.t) (s : Z * Z) (events : list Game.event) :
  Game.setup levelsData = Ok g0 ->
  Game.level_at (Game.levels g0) 0 = Some level0 ->
  Level.start level0 = Some s ->
  exists g level,
    Game.run k g0 events = Game.Done g
    /\ Game.level_at (Game.levels g) (Game.li g) = Some level
    /\ settled level (Player.r (Game.player g)) (Player.c (Game.player g)) = true.
Proof.
  intros Hsetup Hlev Hstart.
  destruct (game_between_callbacks k _ _ _ _ events Hsetup Hlev Hstart)
    as (g & Hrun & Hli & level & sr & sc & Hl & _ & _ & Hcell & _).
  exists g, level. rewrite Hli. auto.
Qed.

Lemma game_player_stays_in_grid_witness :
  exists g0, Game.setup demo_data = Ok g0
  /\ exists g level,
       Game.run p5_keys g0 demo_events = Game.Done g
       /\ Game.level_at (Game.levels g) (Game.li g) = Some level
       /\ settled level (Player.r (Game.player g)) (Player.c (Game.player g)) = true.
Proof.
  demo_setup Hs Hl Hst.
  eexists. split; [exact Hs|].
  exact (game_player_stays_in_grid p5_keys demo_data _ _ _ demo_events Hs Hl Hst).
Defined.

(** X2: in such a game, whenever the player is moving between callbacks its
    target is an in-bounds cell of the current level that holds no Wall,
    exactly one step along one axis from the player's cell. *)
Theorem game_target_one_step_away (k : Game.p5) (levelsData : list (list Array.t))
      (g0 g : Game.t) (level0 : Level.t) (s : Z * Z) (events : list Game.event) :
  Game.setup levelsData = Ok g0 ->
  Game.level_at (Game.levels g0) 0 = Some level0 ->
  Level.start level0 = Some s ->
  Game.run k g0 events = Game.Done g ->
  Player.moving (Game.player g) = true ->
  exists level tr tc,
    Game.level_at (Game.levels g) (Game.li g) = Some level
    /\ Player.targetR (Game.player g) = Some tr
    /\ Player.targetC (Game.player g) = Some tc
    /\ enterable level tr tc = true
    /\ Z.abs (tr - Player.r (Game.player g))
       + Z.abs (tc - Player.c (Game.player g)) = 1.
Proof.
  intros Hsetup Hlev Hstart Hrun Hm.
  destruct (game_between_callbacks k _ _ _ _ events Hsetup Hlev Hstart)
    as (g' & Hrun' & Hli & level & sr & sc & Hl & _ & _ & _ & Hmov & _).
  rewrite Hrun in Hrun'. injection Hrun' as <-.
  destruct (Hmov Hm) as (tr & tc & H). exists level, tr, tc.
  rewrite Hli. auto.
Qed.

Lemma game_target_one_step_away_witness :
  exists g0 g level,
    Game.setup demo_data = Ok g0
    /\ Game.run p5_keys g0 (take 3 demo_events) = Game.Done g
    /\ Game.level_at (Game.levels g) (Game.li g) = Some level
    /\ Player.r (Game.player g) = 1 /\ Player.c (Game.player g) = 2
    /\ Player.targetR (Game.player g) = Some 1
    /\ Player.targetC (Game.player g) = Some 3
    /\ enterable level 1 3 = true.
Proof.
  demo_setup Hs Hl Hst.
  demo_run (take 3 demo_events) Hs Hrun.
  destruct (game_target_one_step_away p5_keys demo_data _ _ _ _ _
              Hs Hl Hst Hrun eq_refl)
    as (level & tr & tc & Hlev & Htr & Htc & Hent & _).
  injection Htr as <-. injection Htc as <-.
  eexists _, _, level. split; [exact Hs|]. split; [exact Hrun|].
  split; [exact Hlev|]. repeat split. exact Hent.
Defined.

(** X3: in such a game [hasWon] is only ever set while the player is at rest
    on a cell of the current level that holds the Goal. *)
Theorem game_won_on_goal (k : Game.p5) (levelsData : list (list Array.t))
      (g0 g : Game.t) (level0 : Level.t) (s : Z * Z) (events : list Game.event) :
  Game.setup levelsData = Ok g0 ->
  Game.level_at (Game.levels g0) 0 = Some level0 ->
  Level.start level0 = Some s ->
  Game.run k g0 events = Game.Done g ->
  Game.hasWon g = true ->
  Player.moving (Game.player g) = false
  /\ exists level,
       Game.level_at (Game.levels g) (Game.li g) = Some level
       /\ Level.isGoal level (Player.r (Game.player g))
            (Player.c (Game.player g)) = Ok true.
Proof.
  intros Hsetup Hlev Hstart Hrun Hw.
  destruct (game_between_callbacks k _ _ _ _ events Hsetup Hlev Hstart)
    as (g' & Hrun' & Hli & level & sr & sc & Hl & _ & _ & _ & _ & _ & Hwon & _).
  rewrite Hrun in Hrun'. injection Hrun' as <-.
  destruct (Hwon Hw) as [Hm Hgoal]. split; [exact Hm|].
  exists level. rewrite Hli. auto.
Qed.

Lemma game_won_on_goal_witness :
  exists g0 g level,
    Game.setup demo_data = Ok g0
    /\ Game.run p5_keys g0 demo_events = Game.Done g
    /\ Game.hasWon g = true
    /\ Player.moving (Game.player g) = false
    /\ Game.level_at (Game.levels g) (Game.li g) = Some level
    /\ Player.r (Game.player g) = 2 /\ Player.c (Game.player g) = 3
    /\ Level.isGoal level 2 3 = Ok true.
Proof.
  demo_setup Hs Hl Hst.
  demo_run demo_events Hs Hrun.
  destruct (game_won_on_goal p5_keys demo_data _ _ _ _ _ Hs Hl Hst Hrun eq_refl)
    as (Hm & level & Hlev & Hgoal).
  eexists _, _, level. split; [exact Hs|]. split; [exact Hrun|].
  split; [reflexivity|]. split; [exact Hm|]. split; [exact Hlev|].
  split; [reflexivity|]. split; [reflexivity | exact Hgoal].
Defined.

(** X4: in such a game the arrival flag never outlives the frame that set
    it, and the direction held is never diagonal: between callbacks
    [arrivedThisFrame] is false and [(dirR, dirC)] is (0,0) or one step
    along one axis. *)
Theorem game_flag_and_direction (k : Game.p5) (levelsData : list (list Array.t))
      (g0 g : Game.t) (level0 : Level.t) (s : Z * Z) (events : list Game.event) :
  Game.setup levelsData = Ok g0 ->
  Game.level_at (Game.levels g0) 0 = Some level0 ->
  Level.start level0 = Some s ->
  Game.run k g0 events = Game.Done g ->
  Player.arrivedThisFrame (Game.player g) = false
  /\ Z.abs (Player.dirR (Game.player g)) + Z.abs (Player.dirC (Game.player g)) <= 1.
Proof.
  intros Hsetup Hlev Hstart Hrun.
  destruct (game_between_callbacks k _ _ _ _ events Hsetup Hlev Hstart)
    as (g' & Hrun' & _ & level & sr & sc & _ & _ & _ & _ & _ & Hflag & _ & Hdir).
  rewrite Hrun in Hrun'. injection Hrun' as <-.
  split; [exact Hflag|]. apply Z.leb_le. exact Hdir.
Qed.

Lemma game_flag_and_direction_witness :
  exists g0 g,
    Game.setup demo_data = Ok g0
    /\ Game.run p5_keys g0 (take 4 demo_events) = Game.Done g
    /\ Player.arrivedThisFrame (Game.player g) = false
    /\ Z.abs (Player.dirR (Game.player g)) + Z.abs (Player.dirC (Game.player g)) <= 1.
Proof.
  demo_setup Hs Hl Hst.
  demo_run (take 4 demo_events) Hs Hrun.
  eexists _, _. split; [exact Hs|]. split; [exact Hrun|].
  exact (game_flag_and_direction p5_keys demo_data _ _ _ _ _ Hs Hl Hst Hrun).
Defined.

(** *** [setup] and restart *)

Lemma new_grid_length (grid : list Array.t) (tileSize : float) (level : Level.t) :
  Level.new grid tileSize = Ok level ->
  List.length (Level.grid level) = List.length grid.
Proof.
  unfold Level.new.
  destruct (Level.findStart _) as [[[r c]|]|e]; simpl; [| |discriminate].
  - unfold Level.setTile. simpl.
    destruct (row_at grid r) as [row|]; [|discriminate].
    intros H. injection H as <-. simpl. apply length_insert.
  - intros H. injection H as <-. reflexivity.
Qed.

Lemma pixelWidth_raises_iff (level : Level.t) :
  Level.pixelWidth level = Throw TypeError <-> Level.grid level = [].
Proof.
  unfold Level.pixelWidth, Level.cols, row_at. simpl.
  destruct (Level.grid level) as [|row0 rest]; simpl.
  - split; reflexivity.
  - split; discriminate.
Qed.

(** X5: [setup] raises exactly when the level data has no level 0 or level
    0 has no row.  Otherwise it succeeds with one level per matrix, level 0
    current, the start screen showing, the game not won, and the player at
    rest without keys and without a held direction. *)
Theorem setup_raises_iff (levelsData : list (list Array.t)) :
  (Game.setup levelsData = Throw TypeError
   <-> (levelsData = [] \/ exists rest, levelsData = [] :: rest))
  /\ (forall e, Game.setup levelsData = Throw e ->
      levelsData = [] \/ exists rest, levelsData = [] :: rest)
  /\ (forall g0, Game.setup levelsData = Ok g0 ->
      List.length (Game.levels g0) = List.length levelsData
      /\ Game.li g0 = 0 /\ Game.showStart g0 = true /\ Game.hasWon g0 = false
      /\ Player.keysCollected (Game.player g0) = 0
      /\ Player.moving (Game.player g0) = false
      /\ Player.dirR (Game.player g0) = 0 /\ Player.dirC (Game.player g0) = 0).
Proof.
  destruct (buildLevels_total levelsData) as (levels & Hbuild & Hlen).
  assert (Hcases :
    (exists g0, Game.setup levelsData = Ok g0
                /\ ~ (levelsData = [] \/ exists rest, levelsData = [] :: rest)
                /\ Game.levels g0 = levels /\ Game.li g0 = 0
                /\ Game.showStart g0 = true /\ Game.hasWon g0 = false
                /\ exists level, Game.player g0
                                 = Sketch.loadLevel level (Player.new Sketch.TS))
    \/ (Game.setup levelsData = Throw TypeError
        /\ (levelsData = [] \/ exists rest, levelsData = [] :: rest))).
  { unfold Game.setup. rewrite Hbuild. simpl. unfold Game.loadLevel. simpl.
    destruct levelsData as [|grid0 rest].
    - simpl in Hbuild. injection Hbuild as <-. right. split; [reflexivity|].
      left. reflexivity.
    - destruct levels as [|level0 levels']; [discriminate Hlen|].
      unfold Game.level_at. simpl.
      destruct (buildLevels_lookup _ _ 0%nat level0 Hbuild eq_refl)
        as (grid & Hgrid & Hnew).
      simpl in Hgrid. injection Hgrid as <-.
      apply new_grid_length in Hnew. unfold Game.copyGrid in Hnew.
      rewrite length_fmap in Hnew.
      destruct (Level.pixelWidth level0) as [w|[]] eqn:Hw; simpl.
      + left. eexists. split; [reflexivity|]. simpl. split.
        * intros [H|[rest' H]]; [discriminate H|]. injection H as -> _.
          destruct (Level.grid level0) eqn:Hg; [|discriminate Hnew].
          apply pixelWidth_raises_iff in Hg. congruence.
        * repeat split. eauto.
      + right. split; [reflexivity|]. right. exists rest.
        apply pixelWidth_raises_iff in Hw. rewrite Hw in Hnew.
        destruct grid0; [reflexivity | discriminate Hnew]. }
  split; [|split].
  - destruct Hcases as [(g0 & -> & Hnot & _)|[-> Hwhy]].
    + split; [discriminate | intros H; contradiction].
    + split; [intros _; exact Hwhy | reflexivity].
  - intros e He. destruct Hcases as [(g0 & Hok & _)|[_ Hwhy]]; [congruence|exact Hwhy].
  - intros g0 Hg0.
    destruct Hcases as [(g1 & Hok & _ & Hlv & Hli & Hs & Hw & level & Hp)|[Hthrow _]];
      [|congruence].
    rewrite Hok in Hg0. injection Hg0 as <-.
    rewrite Hlv, Hp. split; [exact Hlen|].
    unfold Sketch.loadLevel.
    destruct (Level.start level) as [[r c]|]; simpl; repeat split; assumption.
Qed.

(** X6: pressing space on the win screen restarts by resetting the player
    and the two flags only.  The level grids are kept as play left them,
    with the keys and gates used so far still consumed; the player is put
    on the start of level 0, or on (1,1) when it has none. *)
Theorem restart_keeps_grids (k : Game.p5) (g : Game.t) (level : Level.t)
      (keyCode : Z) :
  Game.showStart g = false -> Game.hasWon g = true ->
  Game.level_at (Game.levels g) 0 = Some level ->
  Level.grid level <> [] ->
  exists g',
    Game.keyPressed k g " " keyCode = Ok g'
    /\ Game.levels g' = Game.levels g /\ Game.li g' = 0
    /\ Game.hasWon g' = false /\ Game.showStart g' = true
    /\ (Player.r (Game.player g'), Player.c (Game.player g'))
       = default (1, 1) (Level.start level)
    /\ Player.keysCollected (Game.player g') = 0
    /\ Player.moving (Game.player g') = false
    /\ Player.arrivedThisFrame (Game.player g') = false
    /\ Player.dirR (Game.player g') = 0 /\ Player.dirC (Game.player g') = 0.
Proof.
  intros Hs Hw Hlev Hgrid.
  unfold Game.keyPressed. rewrite Hs, Hw. simpl.
  unfold Game.restartGame, Game.loadLevel. simpl. rewrite Hlev.
  destruct (Level.pixelWidth level) as [w|[]] eqn:Hpw.
  2:{ apply pixelWidth_raises_iff in Hpw. contradiction. }
  simpl. eexists. split; [reflexivity|]. simpl.
  unfold Sketch.loadLevel. destruct (Level.start level) as [[r c]|]; simpl;
    repeat split.
Qed.

Lemma restart_keeps_grids_witness :
  exists g0 g g' level,
    Game.setup demo_data = Ok g0
    /\ Game.run p5_keys g0 demo_events = Game.Done g
    /\ Game.keyPressed p5_keys g " " 32 = Ok g'
    /\ Game.level_at (Game.levels g') 0 = Some level
    /\ holds level 1 2 Level.FLOOR /\ holds level 1 3 Level.FLOOR
    /\ Player.keysCollected (Game.player g') = 0
    /\ (Player.r (Game.player g'), Player.c (Game.player g')) = (1, 1).
Proof.
  demo_setup Hs Hl Hst. demo_run demo_events Hs Hrun.
  match type of Hrun with
  | _ = Game.Done ?g =>
      eassert (Hlev : Game.level_at (Game.levels g) 0 = Some _)
        by (vm_compute; reflexivity);
      destruct (restart_keeps_grids p5_keys g _ 32 eq_refl eq_refl Hlev)
        as (g' & Hkey & Hlevels & _ & _ & _ & Hcell & Hkeys & _)
  end.
  { vm_compute. discriminate. }
  eexists _, _, g', _. split; [exact Hs|]. split; [exact Hrun|].
  split; [exact Hkey|]. rewrite Hlevels. split; [exact Hlev|].
  split; [vm_compute; reflexivity|]. split; [vm_compute; reflexivity|].
  split; [exact Hkeys | exact Hcell].
Defined.

Lemma setup_raises_iff_witness :
  Game.setup [] = Throw TypeError
  /\ Game.setup [[]; [Array.of_list [2]]] = Throw TypeError
  /\ exists g0, Game.setup demo_data = Ok g0
                /\ List.length (Game.levels g0) = 1%nat
                /\ Game.li g0 = 0 /\ Game.showStart g0 = true
                /\ Game.hasWon g0 = false.
Proof.
  split; [|split].
  - apply (setup_raises_iff []). left. reflexivity.
  - apply (setup_raises_iff [[]; [Array.of_list [2]]]). right. eexists. reflexivity.
  - demo_setup Hs Hl Hst. eexists. split; [exact Hs|].
    destruct (proj2 (proj2 (setup_raises_iff demo_data)) _ Hs)
      as (H1 & H2 & H3 & H4 & _).
    split; [exact H1|]. split; [exact H2|]. split; [exact H3 | exact H4].
Defined.

(** ** The grid queries under their precondition, and on an empty grid *)

(** X7: [inBounds] is a sufficient guard.  At every cell it accepts,
    [tileAt] and the four predicates return without raising, and at most
    one of [isWall], [isGoal], [isKey], [isGate] answers true. *)
Theorem inBounds_guards_predicates (level : Level.t) (r c : Z) :
  Level.inBounds level r c = Ok true ->
  exists (v : option Z) (wall goal key gate : bool),
    Level.tileAt level r c = Ok v
    /\ Level.isWall level r c = Ok wall /\ Level.isGoal level r c = Ok goal
    /\ Level.isKey level r c = Ok key /\ Level.isGate level r c = Ok gate
    /\ (Nat.b2n wall + Nat.b2n goal + Nat.b2n key + Nat.b2n gate <= 1)%nat.
Proof.
  intros Hin. destruct (inBounds_tileAt _ _ _ Hin) as [v Hv].
  exists v, (strict_eq v Level.WALL), (strict_eq v Level.GOAL),
    (strict_eq v Level.KEY), (strict_eq v Level.GATE).
  unfold Level.isWall, Level.isGoal, Level.isKey, Level.isGate.
  rewrite Hv. simpl. repeat (split; [reflexivity|]).
  destruct v as [z|]; simpl; [|lia].
  unfold Level.WALL, Level.GOAL, Level.KEY, Level.GATE.
  destruct (Z.eqb_spec z 1), (Z.eqb_spec z 3), (Z.eqb_spec z 4), (Z.eqb_spec z 5);
    simpl; lia.
Qed.

Lemma inBounds_guards_predicates_witness :
  exists (v : option Z) (wall goal key gate : bool),
    Level.tileAt gate_room 1 2 = Ok v
    /\ Level.isWall gate_room 1 2 = Ok wall /\ Level.isGoal gate_room 1 2 = Ok goal
    /\ Level.isKey gate_room 1 2 = Ok key /\ Level.isGate gate_room 1 2 = Ok gate
    /\ (Nat.b2n wall + Nat.b2n goal + Nat.b2n key + Nat.b2n gate <= 1)%nat.
Proof. apply (inBounds_guards_predicates gate_room 1 2). reflexivity. Defined.

(** X8: a level without rows.  [cols] and [pixelWidth] raise on it and so
    does every tile read, yet [inBounds] answers false everywhere without
    raising, [findStart] returns [null], and constructing a level from the
    empty matrix succeeds with no start. *)
Theorem empty_grid (level : Level.t) :
  Level.grid level = [] ->
  Level.rows level = 0
  /\ Level.cols level = Throw TypeError
  /\ Level.pixelWidth level = Throw TypeError
  /\ (forall r c, Level.tileAt level r c = Throw TypeError)
  /\ (forall r c, Level.inBounds level r c = Ok false)
  /\ Level.findStart level = Ok None
  /\ Level.new (Level.grid level) (Level.ts level)
     = Ok (raw [] (Level.ts level)).
Proof.
  intros Hg. unfold Level.rows, Level.cols, Level.pixelWidth, Level.cols.
  rewrite Hg. simpl. repeat (split; [reflexivity|]).
  split; [|split; [|split]].
  - intros r c. apply tileAt_no_row. rewrite Hg. unfold row_at.
    destruct (r <? 0); [reflexivity|]. apply lookup_nil.
  - intros r c. rewrite inBounds_spec. unfold Level.rows. rewrite Hg. simpl.
    f_equal. apply bool_decide_eq_false_2. lia.
  - unfold Level.findStart, Level.rows. rewrite Hg. reflexivity.
  - reflexivity.
Qed.

Lemma empty_grid_witness :
  Level.cols (raw [] Sketch.TS) = Throw TypeError
  /\ Level.inBounds (raw [] Sketch.TS) 0 0 = Ok false
  /\ Level.findStart (raw [] Sketch.TS) = Ok None.
Proof.
  destruct (empty_grid (raw [] Sketch.TS) eq_refl)
    as (_ & Hcols & _ & _ & Hin & Hfind & _).
  split; [exact Hcols|]. split; [exact (Hin 0 0) | exact Hfind].
Defined.

(** ** More on the player *)

(** X9: [canMoveTo] never raises, and it accepts a cell exactly when the
    cell is in bounds, does not hold a Wall, and does not hold a Gate while
    the player has no key. *)
Theorem canMoveTo_decides (p : Player.t) (level : Level.t) (nr nc : Z) :
  exists ok,
    Player.canMoveTo p level nr nc = Ok ok
    /\ (ok = true <->
        Level.inBounds level nr nc = Ok true
        /\ ~ holds level nr nc Level.WALL
        /\ ~ (holds level nr nc Level.GATE /\ Player.keysCollected p = 0)).
Proof.
  destruct (Level.inBounds level nr nc) as [[|]|e] eqn:Hin.
  - destruct (inBounds_tileAt _ _ _ Hin) as [v Hv].
    rewrite (canMoveTo_in_bounds p _ _ _ v Hin Hv).
    eexists. split; [reflexivity|]. unfold holds. rewrite Hv.
    rewrite andb_true_iff, !negb_true_iff, andb_false_iff.
    rewrite !strict_eq_false, Z.eqb_neq. split.
    + intros [Hw Hg]. split; [reflexivity|]. split.
      * intros H. injection H as H. contradiction.
      * intros [H Hk]. injection H as H. tauto.
    + intros (_ & Hw & Hg). split.
      * intros H. apply Hw. congruence.
      * destruct (decide (v = Some Level.GATE)) as [->|Hne]; [|left; exact Hne].
        right. intros Hk. apply Hg. split; [reflexivity | exact Hk].
  - rewrite canMoveTo_out_of_bounds by exact Hin.
    eexists. split; [reflexivity|]. split; [discriminate|].
    intros [H _]. discriminate H.
  - rewrite inBounds_spec in Hin. discriminate.
Qed.

(** The key counter is a binary64 number too: below 2^53 adding 1 to it is
    exact, at 2^53 the sum rounds back to 2^53. *)
Lemma increment_boundary :
  (num_of_Z (2 ^ 53 - 1) + 1 =? num_of_Z (2 ^ 53))%float = true
  /\ (num_of_Z (2 ^ 53) + 1 =? num_of_Z (2 ^ 53))%float = true.
Proof. split; vm_compute; reflexivity. Qed.

(** X10: arriving on a Key.  For a player whose key counter is an integer
    from 0 up to, but not including, 2^53 (where [keysCollected++] is an
    exact increment), [handleArrival] on a cell that holds a Key adds
    exactly one key, clears the arrival flag and nothing else of the
    player, turns that cell to Floor, and leaves every other cell as it
    was. *)
Theorem key_pickup (p : Player.t) (level : Level.t) :
  0 <= Player.keysCollected p < 2 ^ 53 ->
  holds level (Player.r p) (Player.c p) Level.KEY ->
  exists level',
    Player.handleArrival p level
    = Ok (level', Player.clearArrived
                    (Player.setKeys p (Player.keysCollected p + 1)))
    /\ 0 < Player.keysCollected p + 1 <= 2 ^ 53
    /\ holds level' (Player.r p) (Player.c p) Level.FLOOR
    /\ forall r c, ~ (r = Player.r p /\ c = Player.c p) ->
         Level.tileAt level' r c = Level.tileAt level r c.
Proof.
  intros Hbound Hkey. pose proof (handleArrival_spec p level) as Hspec.
  rewrite Hkey in Hspec. simpl in Hspec.
  destruct Hspec as (level' & Hset & Harr).
  exists level'. split; [exact Harr|]. split; [lia|]. split.
  - unfold holds. rewrite (tileAt_setTile _ _ _ _ _ _ _ Hset).
    rewrite decide_True by (split; reflexivity). reflexivity.
  - intros r c Hne. rewrite (tileAt_setTile _ _ _ _ _ r c Hset).
    rewrite decide_False by exact Hne. reflexivity.
Qed.

Lemma key_pickup_witness :
  exists level',
    Player.handleArrival (Player.setCell (placed 0) 1 2) key_room
    = Ok (level', Player.clearArrived
                    (Player.setKeys (Player.setCell (placed 0) 1 2) 1))
    /\ 0 < 1 <= 2 ^ 53
    /\ holds level' 1 2 Level.FLOOR
    /\ forall r c, ~ (r = 1 /\ c = 2) ->
         Level.tileAt level' r c = Level.tileAt key_room r c.
Proof.
  apply (key_pickup (Player.setCell (placed 0) 1 2) key_room).
  - change (0 <= 0 < 2 ^ 53). lia.
  - vm_compute. reflexivity.
Defined.

(** X11: what [handleArrival] never does.  Whenever it returns, it has
    written no cell but the player's own, has kept the level's recorded
    start, has changed a non-negative key counter by at most one, and has
    left the player's cell, target, movement state, pixel position and held
    direction untouched. *)
Theorem handleArrival_frame (p p' : Player.t) (level level' : Level.t) :
  Player.handleArrival p level = Ok (level', p') ->
  (forall r c, ~ (r = Player.r p /\ c = Player.c p) ->
     Level.tileAt level' r c = Level.tileAt level r c)
  /\ Level.start level' = Level.start level
  /\ (0 <= Player.keysCollected p ->
      Z.abs (Player.keysCollected p' - Player.keysCollected p) <= 1)
  /\ p' = Player.clearArrived (Player.setKeys p (Player.keysCollected p')).
Proof.
  intros Harr. pose proof Harr as Harr0.
  apply handleArrival_tiles in Harr as (v & Hv & Hlevel & Htiles).
  split; [|split; [|split]].
  - intros r c Hne. rewrite Htiles, decide_False by exact Hne. reflexivity.
  - destruct Hlevel as [->|Hset]; [reflexivity|].
    unfold Level.setTile in Hset.
    destruct (row_at (Level.grid level) (Player.r p)); [|discriminate].
    injection Hset as <-. reflexivity.
  - intros Hk.
    pose proof (handleArrival_spec p level) as Hspec. rewrite Hv in Hspec.
    destruct (strict_eq v Level.KEY).
    + destruct Hspec as (l1 & _ & Heq). rewrite Heq in Harr0.
      injection Harr0 as _ <-. simpl. lia.
    + destruct (strict_eq v Level.GATE).
      * destruct Hspec as (l1 & _ & Heq). rewrite Heq in Harr0.
        injection Harr0 as _ <-. simpl. lia.
      * rewrite Hspec in Harr0. injection Harr0 as _ <-. simpl. lia.
  - apply handleArrival_player in Harr0 as (k & -> & _). reflexivity.
Qed.

Lemma handleArrival_frame_witness :
  exists level' p',
    Player.handleArrival (Player.setCell (placed 1) 1 2) gate_room = Ok (level', p')
    /\ (forall r c, ~ (r = 1 /\ c = 2) ->
          Level.tileAt level' r c = Level.tileAt gate_room r c)
    /\ Player.keysCollected p' = 0.
Proof.
  eassert (H : Player.handleArrival (Player.setCell (placed 1) 1 2) gate_room
               = Ok (_, _)) by (vm_compute; reflexivity).
  destruct (handleArrival_frame _ _ _ _ H) as (Hcells & _).
  eexists _, _. split; [exact H|]. split; [exact Hcells | reflexivity].
Defined.

Lemma frames_at_rest (dts : list float) (p : Player.t) :
  Player.moving p = false -> Sketch.frames p dts = Some p.
Proof.
  intros Hm. induction dts as [|dt dts IH]; simpl; [reflexivity|].
  rewrite (update_idle p dt Hm). exact IH.
Qed.

(** X12: where a move request leads.  From rest, a [tryMove] that answers
    true ends, once the frames that follow have brought the player to rest,
    exactly one request step away, on a cell that is in bounds and holds no
    Wall, with the key counter untouched and the request as held direction;
    a [tryMove] that answers false leaves the player where it is however
    many frames pass. *)
Theorem move_request_outcome (p p1 : Player.t) (level : Level.t) (dr dc : Z)
      (dts : list float) :
  Player.moving p = false ->
  (Player.tryMove p level dr dc = Ok (true, p1) ->
   forall p2, Sketch.frames p1 dts = Some p2 -> Player.moving p2 = false ->
     Player.r p2 = Player.r p + dr /\ Player.c p2 = Player.c p + dc
     /\ enterable level (Player.r p2) (Player.c p2) = true
     /\ Player.keysCollected p2 = Player.keysCollected p
     /\ Player.dirR p2 = dr /\ Player.dirC p2 = dc)
  /\ (Player.tryMove p level dr dc = Ok (false, p1) ->
      Sketch.frames p1 dts = Some p1
      /\ Player.r p1 = Player.r p /\ Player.c p1 = Player.c p
      /\ Player.moving p1 = false).
Proof.
  intros Hrest. split.
  - intros Hmove p2 Hframes Hrest2.
    apply tryMove_step in Hmove as [[Hb _]|(_ & _ & Hcan & ->)]; [congruence|].
    assert (Hinv : in_transit_to (Player.r p + dr) (Player.c p + dc)
                     (Player.keysCollected p) dr dc
                     (Player.startMove (Player.setDir p dr dc)
                        (Player.r p + dr) (Player.c p + dc))).
    { unfold in_transit_to. simpl. repeat split; discriminate. }
    apply (frames_in_transit _ _ _ _ _ dts _ p2 Hinv) in Hframes
      as (Hk & Hd1 & Hd2 & _ & _ & Hcell).
    destruct (Hcell Hrest2) as [-> ->].
    repeat split; try assumption. exact (canMoveTo_enterable _ _ _ _ Hcan).
  - intros Hmove.
    apply tryMove_step in Hmove as [[_ ->]|(Hb & _)]; [|discriminate Hb].
    simpl. split; [|repeat split; exact Hrest].
    apply frames_at_rest. exact Hrest.
Qed.

Lemma move_request_outcome_witness :
  (exists p2, Sketch.frames in_flight [100%float; 1000%float] = Some p2
              /\ Player.r p2 = 1 /\ Player.c p2 = 2
              /\ enterable gate_room 1 2 = true
              /\ Player.keysCollected p2 = 1)
  /\ Sketch.frames (Player.setDir (placed 0) 0 1) [100%float]
     = Some (Player.setDir (placed 0) 0 1).
Proof.
  split.
  - destruct (move_request_outcome (placed 1) in_flight gate_room 0 1
                [100%float; 1000%float] eq_refl) as [Hyes _].
    eassert (Hf : Sketch.frames in_flight [100%float; 1000%float] = Some _)
      by (vm_compute; reflexivity).
    destruct (Hyes eq_refl _ Hf eq_refl) as (Hr & Hc & Hent & Hk & _).
    eexists. split; [exact Hf|]. repeat split; assumption.
  - destruct (move_request_outcome (placed 0) (Player.setDir (placed 0) 0 1)
                gate_room 0 1 [100%float] eq_refl) as [_ Hno].
    apply Hno. reflexivity.
Defined.

(** X13: [tryContinue] never raises.  In transit it answers true and
    changes nothing.  At rest it answers true, and starts a move to the
    neighbour in the held direction, exactly when a direction is held and
    [canMoveTo] accepts that neighbour; otherwise it answers false and
    changes nothing. *)
Theorem tryContinue_decides (p : Player.t) (level : Level.t) :
  (Player.moving p = true -> Player.tryContinue p level = Ok (true, p))
  /\ (Player.moving p = false ->
      exists ok : bool,
        Player.tryContinue p level
        = Ok (ok, if ok
                  then Player.startMove p (Player.r p + Player.dirR p)
                         (Player.c p + Player.dirC p)
                  else p)
        /\ (ok = true <->
            ~ (Player.dirR p = 0 /\ Player.dirC p = 0)
            /\ Player.canMoveTo p level (Player.r p + Player.dirR p)
                 (Player.c p + Player.dirC p) = Ok true)).
Proof.
  split.
  - intros Hm. unfold Player.tryContinue. rewrite Hm. reflexivity.
  - intros Hm.
    destruct (decide (Player.dirR p = 0 /\ Player.dirC p = 0)) as [[Hr Hc]|Hdir].
    + exists false. unfold Player.tryContinue. rewrite Hm, Hr, Hc. simpl.
      split; [reflexivity|]. split; [discriminate|]. intros [H _]. tauto.
    + destruct (canMoveTo_total p level (Player.r p + Player.dirR p)
                  (Player.c p + Player.dirC p)) as [ok Hok].
      exists ok. split; [exact (tryContinue_idle p level ok Hm Hdir Hok)|].
      rewrite Hok. split.
      * intros ->. split; [exact Hdir | reflexivity].
      * intros [_ H]. injection H as ->. reflexivity.
Qed.

Lemma tryContinue_decides_witness :
  Player.tryContinue in_flight gate_room = Ok (true, in_flight)
  /\ exists ok : bool,
       Player.tryContinue (Player.setDir (placed 1) 0 1) gate_room
       = Ok (ok, if ok then in_flight else Player.setDir (placed 1) 0 1)
       /\ ok = true.
Proof.
  split.
  - apply (tryContinue_decides in_flight gate_room). reflexivity.
  - destruct (proj2 (tryContinue_decides (Player.setDir (placed 1) 0 1) gate_room)
                eq_refl) as (ok & Hcont & Hiff).
    exists ok. split; [exact Hcont|]. apply Hiff. split.
    + intros [_ H]. discriminate H.
    + reflexivity.
Defined.

(** X14: the pixel position agrees with the cell.  After [setCell], and
    after an arrival in which [update] snaps to the target, [px] and [py]
    are exactly [pixelX()] and [pixelY()], the centre of the player's cell. *)
Theorem pixel_position_on_cell (p : Player.t) :
  (forall r c,
     Player.px (Player.setCell p r c) = Player.pixelX (Player.setCell p r c)
     /\ Player.py (Player.setCell p r c) = Player.pixelY (Player.setCell p r c))
  /\ (forall dt tr tc,
        Player.moving p = true ->
        Player.targetR p = Some tr -> Player.targetC p = Some tc ->
        (Player.dist p =? 0)%float = false ->
        (Player.dist p <=? Player.step p dt)%float = true ->
        exists p',
          Player.update p dt = Some p'
          /\ Player.r p' = tr /\ Player.c p' = tc
          /\ Player.px p' = Player.pixelX p'
          /\ Player.py p' = Player.pixelY p').
Proof.
  split.
  - intros r c. split; reflexivity.
  - intros dt tr tc Hm Htr Htc Hd Hs.
    rewrite (update_moving p dt Hm), Hd, Hs.
    unfold Player.finishMove. simpl. rewrite Htr, Htc.
    eexists. split; [reflexivity|].
    unfold Player.pixelX, Player.pixelY, Player.targetPx, Player.targetPy,
      Player.centre. simpl. rewrite Htr, Htc. repeat split.
Qed.

Lemma pixel_position_on_cell_witness :
  exists p',
    Player.update in_flight 1000%float = Some p'
    /\ Player.r p' = 1 /\ Player.c p' = 2
    /\ Player.px p' = Player.pixelX p'
    /\ Player.py p' = Player.pixelY p'.
Proof.
  apply (pixel_position_on_cell in_flight); reflexivity.
Defined.

(** ** Rows as shared objects: what [copyGrid] buys *)

Lemma read_ext (h h' : gmap nat Array.t) (refs : list nat) :
  (forall l, l ∈ refs -> h' !! l = h !! l) ->
  Store.read h' refs = Store.read h refs.
Proof.
  intros Hsame. unfold Store.read. apply list_fmap_ext.
  intros i l Hl. rewrite Hsame; [reflexivity|].
  apply list_elem_of_lookup. eauto.
Qed.

Lemma read_insert_at (h : gmap nat Array.t) (refs : list nat) (i : nat)
      (l : nat) (a : Array.t) :
  NoDup refs -> refs !! i = Some l ->
  Store.read (<[l := a]> h) refs = <[i := a]> (Store.read h refs).
Proof.
  intros Hnd Hi. apply list_eq. intros j. unfold Store.read.
  rewrite list_lookup_fmap.
  destruct (decide (j = i)) as [->|Hne].
  - rewrite Hi. simpl. rewrite lookup_insert_eq. simpl.
    rewrite list_lookup_insert_eq; [reflexivity|].
    rewrite length_fmap. apply lookup_lt_Some in Hi. exact Hi.
  - rewrite list_lookup_insert_ne by congruence.
    rewrite list_lookup_fmap.
    destruct (refs !! j) as [l'|] eqn:Hj; [|reflexivity]. simpl.
    rewrite lookup_insert_ne; [reflexivity|].
    intros <-. apply Hne. exact (NoDup_lookup _ _ _ _ Hnd Hj Hi).
Qed.

Lemma read_cons (h : gmap nat Array.t) (l : nat) (rest : list nat) :
  Store.read h (l :: rest)
  = default {| Array.elems := ∅; Array.length := 0 |} (h !! l) :: Store.read h rest.
Proof. reflexivity. Qed.

(** [copyGrid], by induction on the rows. *)
Lemma copyGrid_spec (refs : list nat) :
  forall (h h' : gmap nat Array.t) (refs' : list nat),
  Forall (fun l => is_Some (h !! l)) refs ->
  Store.copyGrid h refs = (refs', h') ->
  Store.read h' refs' = Array.slice <$> Store.read h refs
  /\ NoDup refs'
  /\ Forall (fun l => h !! l = None) refs'
  /\ Forall (fun l => is_Some (h' !! l)) refs'
  /\ (forall l, is_Some (h !! l) -> h' !! l = h !! l).
Proof.
  induction refs as [|l rest IH]; intros h h' refs' Hvalid; simpl.
  - intros H. injection H as <- <-.
    split; [reflexivity|]. split; [constructor|]. split; [constructor|].
    split; [constructor|]. reflexivity.
  - set (l' := fresh (dom h)).
    set (a := Array.slice (default {| Array.elems := ∅; Array.length := 0 |} (h !! l))).
    destruct (Store.copyGrid (<[l' := a]> h) rest) as [rest' h2] eqn:Hrest.
    intros H. injection H as <- <-.
    assert (Hfresh : h !! l' = None).
    { apply not_elem_of_dom. apply is_fresh. }
    apply Forall_cons in Hvalid as [Hl Hvalid].
    assert (Hvalid1 : Forall (fun x => is_Some (<[l' := a]> h !! x)) rest).
    { eapply Forall_impl; [exact Hvalid|]. intros x [v Hx]. simpl.
      rewrite lookup_insert_ne; [eauto|]. intros <-. congruence. }
    destruct (IH _ _ _ Hvalid1 Hrest) as (Hread & Hnd & Hnew & Hin & Hkeep).
    assert (Hl' : h2 !! l' = Some a).
    { rewrite Hkeep; rewrite lookup_insert_eq; eauto. }
    split; [|split; [|split; [|split]]].
    + assert (Hsame : Store.read (<[l' := a]> h) rest = Store.read h rest).
      { apply read_ext. intros x Hx. apply lookup_insert_ne.
        rewrite Forall_forall in Hvalid. destruct (Hvalid x Hx) as [v Hv].
        intros <-. congruence. }
      rewrite Hsame in Hread.
      rewrite !read_cons, Hl'. simpl. f_equal. exact Hread.
    + constructor; [|exact Hnd]. intros Hmem.
      rewrite Forall_forall in Hnew. specialize (Hnew l' Hmem).
      rewrite lookup_insert_eq in Hnew. discriminate.
    + constructor; [exact Hfresh|].
      eapply Forall_impl; [exact Hnew|]. intros x Hx. simpl in Hx.
      destruct (decide (l' = x)) as [<-|Hne]; [exact Hfresh|].
      rewrite lookup_insert_ne in Hx by exact Hne. exact Hx.
    + constructor; [rewrite Hl'; eauto | exact Hin].
    + intros x [v Hx]. rewrite Hkeep.
      * apply lookup_insert_ne. intros <-. congruence.
      * rewrite lookup_insert_ne; [eauto|]. intros <-. congruence.
Qed.

(** The constructor on the heap: it writes rows of its own grid only, and
    when no row object occurs twice in the grid it is the constructor of
    [Level] on the rows' contents. *)
Lemma store_new_spec (h : gmap nat Array.t) (refs : list nat) (tileSize : float) :
  exists h' lv,
    Store.new h refs tileSize = Ok (h', lv)
    /\ Store.grid lv = refs
    /\ (forall l, l ∉ refs -> h' !! l = h !! l)
    /\ (forall r c, Store.start lv = Some (r, c) ->
          holds (raw (Store.read h refs) tileSize) r c Level.START
          /\ holds (raw (Store.read h' refs) tileSize) r c Level.FLOOR)
    /\ (NoDup refs ->
        Level.new (Store.read h refs) tileSize = Ok (Store.view h' lv)).
Proof.
  unfold Store.new, Level.new. fold (raw (Store.read h refs) tileSize).
  destruct (findStart_total (raw (Store.read h refs) tileSize))
    as (s & Hfind & Hstart).
  rewrite Hfind. simpl. destruct s as [[r c]|].
  - pose proof (Hstart r c eq_refl) as Hholds.
    destruct (holds_row _ _ _ _ Hholds) as (row & Hrow & Hget).
    simpl in Hrow. unfold row_at, Store.read in Hrow.
    unfold Store.setTile, Level.setTile, row_at. simpl.
    destruct (r <? 0) eqn:Hneg; [discriminate|].
    rewrite list_lookup_fmap in Hrow.
    destruct (refs !! Z.to_nat r) as [l|] eqn:Hl; [|discriminate].
    simpl in Hrow. injection Hrow as Hrow. simpl.
    eexists _, _. split; [reflexivity|]. simpl. split; [reflexivity|].
    split; [|split].
    + intros x Hx. apply lookup_insert_ne. intros <-. apply Hx.
      apply list_elem_of_lookup. eauto.
    + intros r' c' Heq. injection Heq as <- <-. split; [exact Hholds|].
      unfold holds, Level.tileAt, row_at. simpl. rewrite Hneg.
      unfold Store.read. rewrite list_lookup_fmap, Hl. simpl.
      rewrite lookup_insert_eq. simpl. rewrite get_set.
      rewrite decide_True by reflexivity. reflexivity.
    + intros Hnd. unfold Store.read at 1. rewrite list_lookup_fmap, Hl. simpl.
      unfold Store.view. simpl.
      rewrite (read_insert_at _ _ _ _ _ Hnd Hl). reflexivity.
  - eexists _, _. split; [reflexivity|]. simpl. split; [reflexivity|].
    split; [reflexivity|]. split; [intros r c H; discriminate H|].
    intros _. reflexivity.
Qed.

(** X15: [copyGrid] gives the copy rows of its own.  Every row of the copy
    is a new object: it was not on the heap before, so it is no row of the
    source, and no two rows of the copy are the same object.  Each holds the
    [slice] of the corresponding source row, and every object that was on
    the heap is unchanged. *)
Theorem copyGrid_rows_are_new (h h' : gmap nat Array.t) (refs refs' : list nat) :
  Forall (fun l => is_Some (h !! l)) refs ->
  Store.copyGrid h refs = (refs', h') ->
  NoDup refs'
  /\ (forall l, l ∈ refs' -> h !! l = None /\ l ∉ refs)
  /\ Store.read h' refs' = Game.copyGrid (Store.read h refs)
  /\ (forall l, is_Some (h !! l) -> h' !! l = h !! l).
Proof.
  intros Hvalid Hcopy.
  destruct (copyGrid_spec _ _ _ _ Hvalid Hcopy) as (Hread & Hnd & Hnew & _ & Hkeep).
  split; [exact Hnd|]. split; [|split; [exact Hread | exact Hkeep]].
  intros l Hl. rewrite Forall_forall in Hnew, Hvalid.
  split; [exact (Hnew l Hl)|].
  intros Hmem. destruct (Hvalid l Hmem) as [v Hv].
  rewrite (Hnew l Hl) in Hv. discriminate.
Qed.

Lemma copyGrid_rows_are_new_witness :
  exists refs' h',
    Store.copyGrid data_heap data_rows = (refs', h')
    /\ NoDup refs'
    /\ (forall l, l ∈ refs' -> data_heap !! l = None /\ l ∉ data_rows)
    /\ Store.read h' refs' = Game.copyGrid (Store.read data_heap data_rows)
    /\ (forall l, is_Some (data_heap !! l) -> h' !! l = data_heap !! l).
Proof.
  eassert (Hcopy : Store.copyGrid data_heap data_rows = (_, _))
    by (vm_compute; reflexivity).
  eexists _, _. split; [exact Hcopy|].
  apply (copyGrid_rows_are_new data_heap _ data_rows _); [|exact Hcopy].
  repeat constructor; vm_compute; eauto.
Defined.

(** X16: loading a level as [setup] does, constructing it on a copy, leaves
    the level data untouched: after [new Level(copyGrid(grid), TS)] every
    object that was on the heap, the source rows among them, is as it was.
    And the level so built is the one the constructor of [Level] gives on
    the list of the copied rows' contents. *)
Theorem load_leaves_source_untouched (h h1 : gmap nat Array.t)
      (refs refs' : list nat) (tileSize : float) :
  Forall (fun l => is_Some (h !! l)) refs ->
  Store.copyGrid h refs = (refs', h1) ->
  exists h2 lv,
    Store.new h1 refs' tileSize = Ok (h2, lv)
    /\ (forall l, is_Some (h !! l) -> h2 !! l = h !! l)
    /\ Store.read h2 refs = Store.read h refs
    /\ Level.new (Game.copyGrid (Store.read h refs)) tileSize
       = Ok (Store.view h2 lv).
Proof.
  intros Hvalid Hcopy.
  destruct (copyGrid_spec _ _ _ _ Hvalid Hcopy) as (Hread & Hnd & Hnew & _ & Hkeep).
  destruct (store_new_spec h1 refs' tileSize)
    as (h2 & lv & Hstore & _ & Hothers & _ & Hagree).
  exists h2, lv. split; [exact Hstore|].
  assert (Hold : forall l, is_Some (h !! l) -> h2 !! l = h !! l).
  { intros l Hl. rewrite Hothers; [exact (Hkeep l Hl)|].
    intros Hmem. rewrite Forall_forall in Hnew.
    destruct Hl as [v Hv]. rewrite (Hnew l Hmem) in Hv. discriminate. }
  split; [exact Hold|]. split.
  - apply read_ext. intros l Hl. apply Hold.
    rewrite Forall_forall in Hvalid. exact (Hvalid l Hl).
  - unfold Game.copyGrid. rewrite <- Hread. exact (Hagree Hnd).
Qed.

Lemma load_leaves_source_untouched_witness :
  exists refs' h1 h2 lv,
    Store.copyGrid data_heap data_rows = (refs', h1)
    /\ Store.new h1 refs' Sketch.TS = Ok (h2, lv)
    /\ Store.start lv = Some (0, 1)
    /\ Store.read h2 data_rows = one_start
    /\ Level.new (Game.copyGrid one_start) Sketch.TS = Ok (Store.view h2 lv).
Proof.
  eassert (Hcopy : Store.copyGrid data_heap data_rows = (_, _))
    by (vm_compute; reflexivity).
  assert (Hvalid : Forall (fun l => is_Some (data_heap !! l)) data_rows)
    by (repeat constructor; vm_compute; eauto).
  destruct (load_leaves_source_untouched data_heap _ data_rows _ Sketch.TS
              Hvalid Hcopy) as (h2 & lv & Hnew & _ & Hread & Hagree).
  eexists _, _, h2, lv. split; [exact Hcopy|]. split; [exact Hnew|].
  split; [|split; [exact Hread | exact Hagree]].
  assert (Hview : Level.start (Store.view h2 lv) = Some (0, 1)).
  { assert (Hval : Level.new (Game.copyGrid one_start) Sketch.TS
                   = Ok {| Level.grid := [Array.of_list [0; 0]; Array.of_list [0; 0]];
                           Level.ts := Sketch.TS; Level.start := Some (0, 1) |})
      by (vm_compute; reflexivity).
    change (Store.read data_heap data_rows) with one_start in Hagree.
    rewrite Hval in Hagree.
    apply (f_equal (fun x => match x with
                             | Ok l => Level.start l
                             | Throw _ => None
                             end)) in Hagree.
    symmetry. exact Hagree. }
  exact Hview.
Defined.

(** X17: why the copy is needed.  Constructing a level directly on rows that
    hold a Start overwrites it in those very rows: the cell the constructor
    records as start held the Start code before the call and holds Floor in
    the same row object after it.  The constructor writes no object other
    than the rows of the grid it is given. *)
Theorem new_without_copy_overwrites_source (h h' : gmap nat Array.t)
      (refs : list nat) (tileSize : float) (lv : Store.level) :
  Store.new h refs tileSize = Ok (h', lv) ->
  (forall l, l ∉ refs -> h' !! l = h !! l)
  /\ forall r c, Store.start lv = Some (r, c) ->
       holds (raw (Store.read h refs) tileSize) r c Level.START
       /\ holds (raw (Store.read h' refs) tileSize) r c Level.FLOOR.
Proof.
  intros Hnew.
  destruct (store_new_spec h refs tileSize)
    as (h2 & lv2 & Hstore & _ & Hothers & Hstart & _).
  rewrite Hstore in Hnew. injection Hnew as <- <-.
  split; [exact Hothers | exact Hstart].
Qed.

Lemma new_without_copy_overwrites_source_witness :
  exists h' lv,
    Store.new data_heap data_rows Sketch.TS = Ok (h', lv)
    /\ holds (raw (Store.read data_heap data_rows) Sketch.TS) 0 1 Level.START
    /\ holds (raw (Store.read h' data_rows) Sketch.TS) 0 1 Level.FLOOR
    /\ Level.findStart (raw (Store.read h' data_rows) Sketch.TS) = Ok None.
Proof.
  eassert (Hnew : Store.new data_heap data_rows Sketch.TS = Ok (_, _))
    by (vm_compute; reflexivity).
  destruct (new_without_copy_overwrites_source _ _ _ _ _ Hnew) as [_ Hstart].
  destruct (Hstart 0 1 eq_refl) as [Hbefore Hafter].
  eexists _, _. split; [exact Hnew|]. split; [exact Hbefore|].
  split; [exact Hafter|]. vm_compute. reflexivity.
Defined.

(** X18: what a copy holds.  [copyGrid] keeps the number of rows and the
    length of every row; a copied row reads like its source at every index
    below its length and [undefined] anywhere else; and a grid of plain
    arrays, as [JSON.parse] gives them, is equal to its copy. *)
Theorem copyGrid_contents (g : list Array.t) :
  List.length (Game.copyGrid g) = List.length g
  /\ (forall (r : nat) (row : Array.t), g !! r = Some row ->
        exists row',
          Game.copyGrid g !! r = Some row'
          /\ Array.length row' = Array.length row
          /\ forall i, Array.get row' i
                       = if decide (0 <= i < Z.of_nat (Array.length row))
                         then Array.get row i else None)
  /\ (Forall (fun row => Array.dense row = true) g -> Game.copyGrid g = g).
Proof.
  unfold Game.copyGrid. split; [apply length_fmap|]. split.
  - intros r row Hrow. exists (Array.slice row).
    rewrite list_lookup_fmap, Hrow. split; [reflexivity|].
    split; [reflexivity|]. intros i. apply get_slice.
  - intros Hdense. induction Hdense as [|row rest Hrow _ IH]; [reflexivity|].
    rewrite fmap_cons, IH, (slice_dense row Hrow). reflexivity.
Qed.

Lemma copyGrid_contents_witness :
  Game.copyGrid one_start = one_start
  /\ Game.copyGrid [Array.set (Array.of_list [0; 2]) (-1) 5]
     = [Array.of_list [0; 2]].
Proof.
  split.
  - apply (copyGrid_contents one_start).
    repeat constructor; apply dense_of_list.
  - vm_compute. reflexivity.
Defined.
